(** * Tag configuration of the skier_aitagging plugin

    A shallow embedding of
    [backend/plugins/skier_aitagging_plugin/tag_config.py] and the
    properties of its row parser, override merge, loader, resolution and
    cached store.

    Conventions of the embedding.
    - Python [str] is [string]; one [ascii] stands for one code point
      below 256.  On that range [str.strip] and [str.lower] act exactly
      as [strip] and [lower] below.
    - [float] values and the conversion [float(text)] belong to the
      Python runtime; they are the interface [PyFloat].
    - [TagSettings] and [TagConfiguration] instances are mutable objects:
      they live in a store and are named by their address.  Exceptions
      are an outcome next to the store, so that what was mutated before a
      raise stays mutated.
    - Log calls have no effect on any value and are left out. *)

From Stdlib Require Import Ascii String NArith List.
From stdpp Require Import base option list strings gmap fin_maps.

Local Open Scope string_scope.

(** ** Text primitives of the runtime *)

Module Text.

(** [str.isspace] on one code point below 256. *)
Definition isspace (c : ascii) : bool :=
  let n := N_of_ascii c in
  ((9 <=? n) && (n <=? 13) || (28 <=? n) && (n <=? 32)
   || (n =? 133) || (n =? 160))%N.

(** [str.lower] on one code point below 256. *)
Definition lower_char (c : ascii) : ascii :=
  let n := N_of_ascii c in
  if ((65 <=? n) && (n <=? 90)
      || (192 <=? n) && (n <=? 222) && negb (n =? 215))%N
  then ascii_of_N (n + 32) else c.

Fixpoint lstrip_chars (l : list ascii) : list ascii :=
  match l with
  | [] => []
  | c :: l' => if isspace c then lstrip_chars l' else l
  end.

Definition strip_chars (l : list ascii) : list ascii :=
  rev (lstrip_chars (rev (lstrip_chars l))).

(** [s.strip()] *)
Definition strip (s : string) : string :=
  string_of_list_ascii (strip_chars (list_ascii_of_string s)).

(** [s.lower()] *)
Fixpoint lower (s : string) : string :=
  match s with
  | EmptyString => EmptyString
  | String c s' => String (lower_char c) (lower s')
  end.

(** [s.replace(c, "")] for a one-character [c]. *)
Fixpoint remove_char (c : ascii) (s : string) : string :=
  match s with
  | EmptyString => EmptyString
  | String d s' =>
      if Ascii.eqb c d then remove_char c s' else String d (remove_char c s')
  end.

(** Every character is white space (the empty string included). *)
Definition blank (s : string) : bool :=
  forallb isspace (list_ascii_of_string s).

(** Truth value of a [str]: non-empty. *)
Definition truthy (s : string) : bool :=
  match s with EmptyString => false | String _ _ => true end.

(** [text in {a, b, ...}] *)
Definition mem (text : string) (lits : list string) : bool :=
  existsb (String.eqb text) lits.

End Text.

(** ** The runtime's floats *)

(** [float_of_str text] is [float(text)]: [None] stands for the
    [ValueError] that [_parse_float] catches. *)
Class PyFloat := {
  float : Type;
  float_of_str : string -> option float
}.

(** ** Value parsers *)

Definition _normalize_key (key : string) : string :=
  let key := Text.lower (Text.strip key) in
  let key := Text.remove_char " " key in
  let key := Text.remove_char "-" key in
  let key := Text.remove_char "_" key in
  key.

(** The cells that [csv.DictReader] hands over under a header are [str]
    or [None]; the branches of the parsers for values that are already
    [bool] or numbers are never taken on them. *)
Definition _normalize_string (value : option string) : option string :=
  match value with
  | None => None
  | Some value =>
      let result := Text.strip value in
      if Text.truthy result then Some result else None
  end.

Definition _parse_bool (value : option string) : option bool :=
  match value with
  | None => None
  | Some value =>
      let text := Text.lower (Text.strip value) in
      if Text.mem text ["1"; "true"; "yes"; "y"] then Some true
      else if Text.mem text ["0"; "false"; "no"; "n"] then Some false
      else None
  end.

Definition _parse_float `{PyFloat} (value : option string) : option float :=
  match value with
  | None => None
  | Some value =>
      let text := Text.strip value in
      if negb (Text.truthy text) then None else float_of_str text
  end.

(** ** Data model *)

Module TagSettings.
(** The fields of the dataclass; the tuple [merge_params], declared with
    five positions, is a list. *)
Record t_ {F : Type} := mk {
  tag_name : string;
  stash_name : option string;
  markers_enabled : bool;
  scene_tag_enabled : bool;
  image_enabled : bool;
  required_scene_tag_duration : option F;
  min_marker_duration : option F;
  max_gap : option F;
  merge_strategy : string;
  merge_params : list (option F)
}.
Arguments t_ : clear implicits.
Arguments mk : clear implicits.

(** The dataclass over the runtime's floats. *)
Abbreviation t := (t_ float).

Section Setters.
Context `{PyFloat}.

(** One attribute assignment [obj.field = v] on the object's value. *)
Definition set_tag_name (v : string) (s : t) : t :=
  mk _ v (stash_name s) (markers_enabled s) (scene_tag_enabled s)
     (image_enabled s) (required_scene_tag_duration s)
     (min_marker_duration s) (max_gap s) (merge_strategy s) (merge_params s).
Definition set_stash_name (v : option string) (s : t) : t :=
  mk _ (tag_name s) v (markers_enabled s) (scene_tag_enabled s)
     (image_enabled s) (required_scene_tag_duration s)
     (min_marker_duration s) (max_gap s) (merge_strategy s) (merge_params s).
Definition set_markers_enabled (v : bool) (s : t) : t :=
  mk _ (tag_name s) (stash_name s) v (scene_tag_enabled s)
     (image_enabled s) (required_scene_tag_duration s)
     (min_marker_duration s) (max_gap s) (merge_strategy s) (merge_params s).
Definition set_scene_tag_enabled (v : bool) (s : t) : t :=
  mk _ (tag_name s) (stash_name s) (markers_enabled s) v
     (image_enabled s) (required_scene_tag_duration s)
     (min_marker_duration s) (max_gap s) (merge_strategy s) (merge_params s).
Definition set_image_enabled (v : bool) (s : t) : t :=
  mk _ (tag_name s) (stash_name s) (markers_enabled s) (scene_tag_enabled s)
     v (required_scene_tag_duration s)
     (min_marker_duration s) (max_gap s) (merge_strategy s) (merge_params s).
Definition set_required_scene_tag_duration (v : option float) (s : t) : t :=
  mk _ (tag_name s) (stash_name s) (markers_enabled s) (scene_tag_enabled s)
     (image_enabled s) v
     (min_marker_duration s) (max_gap s) (merge_strategy s) (merge_params s).
Definition set_min_marker_duration (v : option float) (s : t) : t :=
  mk _ (tag_name s) (stash_name s) (markers_enabled s) (scene_tag_enabled s)
     (image_enabled s) (required_scene_tag_duration s)
     v (max_gap s) (merge_strategy s) (merge_params s).
Definition set_max_gap (v : option float) (s : t) : t :=
  mk _ (tag_name s) (stash_name s) (markers_enabled s) (scene_tag_enabled s)
     (image_enabled s) (required_scene_tag_duration s)
     (min_marker_duration s) v (merge_strategy s) (merge_params s).
Definition set_merge_strategy (v : string) (s : t) : t :=
  mk _ (tag_name s) (stash_name s) (markers_enabled s) (scene_tag_enabled s)
     (image_enabled s) (required_scene_tag_duration s)
     (min_marker_duration s) (max_gap s) v (merge_params s).
Definition set_merge_params (v : list (option float)) (s : t) : t :=
  mk _ (tag_name s) (stash_name s) (markers_enabled s) (scene_tag_enabled s)
     (image_enabled s) (required_scene_tag_duration s)
     (min_marker_duration s) (max_gap s) (merge_strategy s) v.
End Setters.
End TagSettings.

Module TagSettingsOverride.
Record t_ {F : Type} := mk {
  stash_name : option string;
  markers_enabled : option bool;
  scene_tag_enabled : option bool;
  image_enabled : option bool;
  required_scene_tag_duration : option F;
  min_marker_duration : option F;
  max_gap : option F;
  merge_strategy : option string;
  merge_params : list (option F)
}.
Arguments t_ : clear implicits.
Arguments mk : clear implicits.

(** The dataclass over the runtime's floats. *)
Abbreviation t := (t_ float).
End TagSettingsOverride.

(** Addresses of objects in the store. *)
Definition loc := nat.

Module TagConfiguration.
(** The four private attributes set by [__init__]; the settings object
    and the overrides dict are held by reference. *)
Record t := mk {
  _source_path : string;
  _global_settings : loc;
  _overrides : loc;
  _tag_suffix : string
}.
End TagConfiguration.

(** ** The world outside the module *)

(** One entry of the dict that [csv.DictReader] yields for a data row:
    a header with its cell ([None] when the row is short), or the surplus
    cells of a long row, which the reader files under the key [None]. *)
Inductive raw_item :=
  | Field (key : string) (value : option string)
  | Rest (cells : list string).

(** The exceptions that can occur: [IndexError] from an assignment past
    the end of a list, the reader's failures, and [InvalidRef], which no
    Python program meets: it stands for the use of an address that names
    no object of the store. *)
Inductive exc :=
  | IndexError
  | UnicodeDecodeError
  | CsvError
  | OSError
  | InvalidRef.

(** What opening a file and iterating a [DictReader] over it produces:
    the data rows in order, then the end of the file or an exception. *)
Record csv_file := {
  data_rows : list (list raw_item);
  failure : option exc
}.

(** The [PluginSetting] row for ([skier_aitagging_plugin], [tag_suffix]). *)
Inductive setting_value := SNull | SStr (s : string) | SOther.
Inductive setting_query :=
  | QueryFails
  | NoRow
  | SettingRow (value default_value : setting_value).

(** The world outside the program: the directory of the module, the
    files that are there, the directories that cannot be examined (a name
    too long, no permission to search), whether [shutil.copyfile] fails
    and what a failing copy leaves at its destination (nothing, or a file
    with a part of the content), and the row of the settings table. *)
Record World := {
  plugin_root : string;
  files : gmap string csv_file;
  unexaminable : gset string;
  copyfile_fails : bool;
  partial_copy : option csv_file;
  plugin_setting : setting_query
}.

(** ** Program state and the monad of statements *)

Record State_ {F : Type} := mkState {
  settings_objs : list (TagSettings.t_ F);
  dict_objs : list (gmap string (TagSettingsOverride.t_ F));
  config_objs : list TagConfiguration.t;
  world : World;
  _CONFIG_CACHE : option loc
}.
Arguments State_ : clear implicits.
Arguments mkState : clear implicits.

(** The state over the runtime's floats. *)
Abbreviation State := (State_ float).

Inductive outcome (A : Type) :=
  | Returned (a : A)
  | Raised (e : exc).
Arguments Returned {A} a.
Arguments Raised {A} e.

Definition M `{PyFloat} (A : Type) : Type := State -> State * outcome A.

Section Monad.
Context `{PyFloat}.

Definition ret {A} (a : A) : M A := fun st => (st, Returned a).
Definition raise {A} (e : exc) : M A := fun st => (st, Raised e).
Definition bind {A B} (m : M A) (k : A -> M B) : M B :=
  fun st =>
    match m st with
    | (st', Returned a) => k a st'
    | (st', Raised e) => (st', Raised e)
    end.
(** [try: m  except Exception: handler] *)
Definition try_except {A} (m : M A) (handler : exc -> M A) : M A :=
  fun st =>
    match m st with
    | (st', Returned a) => (st', Returned a)
    | (st', Raised e) => handler e st'
    end.
Definition lift {A} (o : outcome A) : M A := fun st => (st, o).
End Monad.

Notation "x <- m ;; k" := (bind m (fun x => k))
  (at level 100, m at next level, right associativity).
Notation "m ;;; k" := (bind m (fun _ => k))
  (at level 100, right associativity).

(** ** Statements on the store *)

Section Store.
Context `{PyFloat}.

Definition with_settings (v : list TagSettings.t) (st : State) : State :=
  mkState _ v (dict_objs st) (config_objs st) (world st) (_CONFIG_CACHE st).
Definition with_dicts (v : list (gmap string TagSettingsOverride.t)) (st : State) : State :=
  mkState _ (settings_objs st) v (config_objs st) (world st) (_CONFIG_CACHE st).
Definition with_configs (v : list TagConfiguration.t) (st : State) : State :=
  mkState _ (settings_objs st) (dict_objs st) v (world st) (_CONFIG_CACHE st).
Definition with_world (v : World) (st : State) : State :=
  mkState _ (settings_objs st) (dict_objs st) (config_objs st) v (_CONFIG_CACHE st).
Definition with_cache (v : option loc) (st : State) : State :=
  mkState _ (settings_objs st) (dict_objs st) (config_objs st) (world st) v.

(** [TagSettings(...)] and [dataclasses.replace]: a new object. *)
Definition new_settings (s : TagSettings.t) : M loc :=
  fun st => (with_settings (settings_objs st ++ [s]) st,
             Returned (length (settings_objs st))).

(** [obj.field] *)
Definition getattr {A} (obj : loc) (field : TagSettings.t -> A) : M A :=
  fun st =>
    match settings_objs st !! obj with
    | Some s => (st, Returned (field s))
    | None => (st, Raised InvalidRef)
    end.

(** [obj.field = v], with [assign] one of the setters of [TagSettings]. *)
Definition setattr (obj : loc) (assign : TagSettings.t -> TagSettings.t) : M unit :=
  fun st =>
    match settings_objs st !! obj with
    | Some s => (with_settings (<[obj := assign s]> (settings_objs st)) st, Returned tt)
    | None => (st, Raised InvalidRef)
    end.

(** [{}] *)
Definition new_dict : M loc :=
  fun st => (with_dicts (dict_objs st ++ [∅]) st, Returned (length (dict_objs st))).

(** [d.get(key)] *)
Definition dict_get (d : loc) (key : string) : M (option TagSettingsOverride.t) :=
  fun st =>
    match dict_objs st !! d with
    | Some m => (st, Returned (m !! key))
    | None => (st, Raised InvalidRef)
    end.

(** [d[key] = value] *)
Definition dict_setitem (d : loc) (key : string) (value : TagSettingsOverride.t) : M unit :=
  fun st =>
    match dict_objs st !! d with
    | Some m => (with_dicts (<[d := <[key := value]> m]> (dict_objs st)) st, Returned tt)
    | None => (st, Raised InvalidRef)
    end.

(** [cls(source_path=..., ...)] *)
Definition new_config (c : TagConfiguration.t) : M loc :=
  fun st => (with_configs (config_objs st ++ [c]) st,
             Returned (length (config_objs st))).

Definition read_config (self : loc) : M TagConfiguration.t :=
  fun st =>
    match config_objs st !! self with
    | Some c => (st, Returned c)
    | None => (st, Raised InvalidRef)
    end.

Definition read_world : M World := fun st => (st, Returned (world st)).
Definition write_world (w : World) : M unit := fun st => (with_world w st, Returned tt).

(** The module global [_CONFIG_CACHE]. *)
Definition read_cache : M (option loc) := fun st => (st, Returned (_CONFIG_CACHE st)).
Definition write_cache (v : option loc) : M unit := fun st => (with_cache v st, Returned tt).

(** [if v is not None: body(v)] *)
Definition if_not_none {A} (v : option A) (body : A -> M unit) : M unit :=
  match v with
  | Some a => body a
  | None => ret tt
  end.

(** [if cond: body] *)
Definition when (cond : bool) (body : M unit) : M unit :=
  if cond then body else ret tt.

End Store.

(** ** The module's functions *)

Definition _CONFIG_FILENAME : string := "tag_settings.csv".
Definition _TEMPLATE_FILENAME : string := "tag_settings.template.csv".

(** [root / name] on [pathlib.Path]. *)
Definition path_join (root name : string) : string := root +:+ "/" +:+ name.

Definition _get_tag_suffix (w : World) : string :=
  match plugin_setting w with
  | SettingRow value default_value =>
      let value := match value with SNull => default_value | _ => value end in
      match value with
      | SStr s => s
      | _ => "_AI"
      end
  | NoRow | QueryFails => "_AI"
  end.

(** [x or y] on optional strings: [x] when it is a non-empty string. *)
Definition str_or (x y : option string) : option string :=
  match x with
  | Some s => if Text.truthy s then x else y
  | None => y
  end.

(** Truth value of a tuple: non-empty. *)
Definition seq_truthy {A} (t : list A) : bool :=
  match t with [] => false | _ :: _ => true end.

(** [dict.get(key)] on the row's normalized dict: [None] when absent. *)
Definition cell (normalized : gmap string (option string)) (key : string)
  : option string :=
  default None (normalized !! key).

(** The first loop of [_parse_row]: entries under the key [None] are
    skipped, [str] cells are stripped, a later header with the same
    normalized key overwrites an earlier one. *)
Definition normalize_item (normalized : gmap string (option string)) (item : raw_item)
  : gmap string (option string) :=
  match item with
  | Rest _ => normalized
  | Field key value => <[_normalize_key key := Text.strip <$> value]> normalized
  end.

Definition normalize_row (raw_row : list raw_item) : gmap string (option string) :=
  foldl normalize_item ∅ raw_row.

(** [any(str(value).strip() for value in normalized.values()
         if value is not None)] *)
Definition any_value (normalized : gmap string (option string)) : bool :=
  existsb (fun kv => match kv.2 with
                     | Some value => Text.truthy (Text.strip value)
                     | None => false
                     end) (map_to_list normalized).

(** [str(idx)] for the indices [1 .. 5] of the merge-parameter columns. *)
Definition str_of_index (idx : nat) : string :=
  match idx with
  | 1 => "1" | 2 => "2" | 3 => "3" | 4 => "4" | 5 => "5" | _ => ""
  end.

Section Functions.
Context `{PyFloat}.

Definition _parse_row (row_number : nat) (raw_row : list raw_item)
  : option string * option TagSettingsOverride.t :=
  let normalized := normalize_row raw_row in
  if negb (any_value normalized) then (None, None)
  else
    let tag_value := str_or (cell normalized "tagname") (cell normalized "tag") in
    let tag_value := match tag_value with Some s => Text.strip s | None => "" end in
    let override :=
      TagSettingsOverride.mk _
        (_normalize_string (cell normalized "stashname"))
        (_parse_bool (cell normalized "markersenabled"))
        (_parse_bool (cell normalized "scenetagenabled"))
        (_parse_bool (cell normalized "imageenabled"))
        (_parse_float (cell normalized "requiredscenetagduration"))
        (_parse_float (cell normalized "minmarkerduration"))
        (_parse_float (cell normalized "maxgap"))
        (_normalize_string (cell normalized "mergestrategy"))
        ((fun idx => _parse_float (cell normalized ("markermergeparam" +:+ str_of_index idx)))
           <$> seq 1 5) in
    if Text.mem tag_value [""; "*"; "default"; "__default__"]
    then (None, Some override)
    else (Some (Text.lower tag_value), Some override).

(** The literal of [_base_settings]: the built-in defaults. *)
Definition builtin_defaults : TagSettings.t :=
  TagSettings.mk _ "__global__" None true true false None None None "default"
    [None; None; None; None; None].

Definition _base_settings : M loc := new_settings builtin_defaults.

(** The loop of [_apply_override] over [enumerate(override.merge_params)];
    [merged[idx] = value] raises [IndexError] past the end of [merged]. *)
Fixpoint merge_positions (idx : nat) (values merged : list (option float))
  : outcome (list (option float)) :=
  match values with
  | [] => Returned merged
  | None :: values' => merge_positions (S idx) values' merged
  | Some v :: values' =>
      if decide (idx < length merged)
      then merge_positions (S idx) values' (<[idx := Some v]> merged)
      else Raised IndexError
  end.

Definition _apply_override (base : loc) (override : TagSettingsOverride.t) : M unit :=
  if_not_none (TagSettingsOverride.stash_name override) (fun v =>
    setattr base (TagSettings.set_stash_name (if Text.truthy v then Some v else None))) ;;;
  if_not_none (TagSettingsOverride.markers_enabled override) (fun v =>
    setattr base (TagSettings.set_markers_enabled v)) ;;;
  if_not_none (TagSettingsOverride.scene_tag_enabled override) (fun v =>
    setattr base (TagSettings.set_scene_tag_enabled v)) ;;;
  if_not_none (TagSettingsOverride.image_enabled override) (fun v =>
    setattr base (TagSettings.set_image_enabled v)) ;;;
  if_not_none (TagSettingsOverride.required_scene_tag_duration override) (fun v =>
    setattr base (TagSettings.set_required_scene_tag_duration (Some v))) ;;;
  if_not_none (TagSettingsOverride.min_marker_duration override) (fun v =>
    setattr base (TagSettings.set_min_marker_duration (Some v))) ;;;
  if_not_none (TagSettingsOverride.max_gap override) (fun v =>
    setattr base (TagSettings.set_max_gap (Some v))) ;;;
  if_not_none (TagSettingsOverride.merge_strategy override) (fun v =>
    setattr base (TagSettings.set_merge_strategy v)) ;;;
  when (seq_truthy (TagSettingsOverride.merge_params override))
    (merged <- getattr base TagSettings.merge_params ;;
     merged <- lift (merge_positions 0 (TagSettingsOverride.merge_params override) merged) ;;
     setattr base (TagSettings.set_merge_params merged)).

End Functions.

(** ** Resolution, loading and the cached store *)

Definition with_files (v : gmap string csv_file) (w : World) : World :=
  {| plugin_root := plugin_root w; files := v;
     unexaminable := unexaminable w;
     copyfile_fails := copyfile_fails w; partial_copy := partial_copy w;
     plugin_setting := plugin_setting w |}.

(** Whether [(root / name).exists()] answers: it does for a file that is
    there, in the directory of the module itself (the module was imported
    from it), and in every other directory that can be examined.
    Otherwise [exists()] raises [OSError]. *)
Definition can_examine (w : World) (root name : string) : bool :=
  bool_decide (is_Some (files w !! path_join root name))
  || bool_decide (root = plugin_root w)
  || bool_decide (root ∉ unexaminable w).

(** Truth value of a [str | None]. *)
Definition opt_truthy (v : option string) : bool :=
  match v with Some s => Text.truthy s | None => false end.

Section Loader.
Context `{PyFloat}.

(** [dataclasses.replace(obj, field=v)]: a new object with the fields of
    [obj] and the one change. *)
Definition replace (obj : loc) (change : TagSettings.t -> TagSettings.t) : M loc :=
  s <- getattr obj id ;;
  new_settings (change s).

(** [tag_name] is a [str]; the guard [tag_name or ""] is for callers that
    pass [None], which is taken as the empty string. *)
Definition resolve (self : loc) (tag_name : string) : M loc :=
  cfg <- read_config self ;;
  let normalized := Text.strip tag_name in
  global_name <- getattr (TagConfiguration._global_settings cfg) TagSettings.tag_name ;;
  effective <- replace (TagConfiguration._global_settings cfg)
    (TagSettings.set_tag_name
       (if Text.truthy normalized then normalized else global_name)) ;;
  override <- (if Text.truthy normalized
               then dict_get (TagConfiguration._overrides cfg) (Text.lower normalized)
               else ret None) ;;
  if_not_none override (fun override => _apply_override effective override) ;;;
  stash_name <- getattr effective TagSettings.stash_name ;;
  when (negb (opt_truthy stash_name))
    (setattr effective
       (TagSettings.set_stash_name
          (Some (if Text.truthy normalized
                 then normalized +:+ TagConfiguration._tag_suffix cfg
                 else normalized)))) ;;;
  merge_strategy <- getattr effective TagSettings.merge_strategy ;;
  when (negb (Text.truthy merge_strategy))
    (setattr effective (TagSettings.set_merge_strategy "default")) ;;;
  ret effective.

(** [(root / name).exists()]: [Path.exists] answers [False] for a path
    that is not there and raises the [OSError] of a path that cannot be
    examined. *)
Definition path_exists (root name : string) : M bool :=
  w <- read_world ;;
  if can_examine w root name
  then ret (bool_decide (is_Some (files w !! path_join root name)))
  else raise OSError.

(** [shutil.copyfile(src, dst)]: it opens [src], then [dst] for writing,
    and copies; a copy that fails on the way leaves at [dst] what it had
    written. *)
Definition copyfile (src dst : string) : M unit :=
  w <- read_world ;;
  match files w !! src with
  | None => raise OSError
  | Some f =>
      if copyfile_fails w then
        match partial_copy w with
        | Some part => write_world (with_files (<[dst := part]> (files w)) w)
        | None => ret tt
        end ;;;
        raise OSError
      else write_world (with_files (<[dst := f]> (files w)) w)
  end.

(** The [for idx, raw_row in enumerate(reader, start=2)] loop of [load]. *)
Fixpoint read_rows (idx : nat) (rows : list (list raw_item)) (failure : option exc)
    (global_settings overrides : loc) : M unit :=
  match rows with
  | [] => match failure with
          | Some e => raise e
          | None => ret tt
          end
  | raw_row :: rows' =>
      match _parse_row idx raw_row with
      | (_, None) => ret tt
      | (None, Some override) => _apply_override global_settings override
      | (Some tag_key, Some override) => dict_setitem overrides tag_key override
      end ;;;
      read_rows (S idx) rows' failure global_settings overrides
  end.

(** The body of the [try] in [load]: open the file and run the loop. *)
Definition read_config_file (config_path : string) (global_settings overrides : loc)
  : M unit :=
  w <- read_world ;;
  match files w !! config_path with
  | Some f => read_rows 2 (data_rows f) (failure f) global_settings overrides
  | None => raise OSError
  end.

Definition load (base_path : option string) : M loc :=
  w <- read_world ;;
  let plugin_root := plugin_root w in
  let config_root := default plugin_root base_path in
  let config_path := path_join config_root _CONFIG_FILENAME in
  overrides <- new_dict ;;
  global_settings <- _base_settings ;;
  let tag_suffix := _get_tag_suffix w in
  config_exists <- path_exists config_root _CONFIG_FILENAME ;;
  when (negb config_exists)
    (let template_path := path_join plugin_root _TEMPLATE_FILENAME in
     template_exists <- path_exists plugin_root _TEMPLATE_FILENAME ;;
     when template_exists
       (try_except (copyfile template_path config_path) (fun _ => ret tt))) ;;;
  config_exists <- path_exists config_root _CONFIG_FILENAME ;;
  when config_exists
    (try_except (read_config_file config_path global_settings overrides)
                (fun _ => ret tt)) ;;;
  new_config (TagConfiguration.mk config_path global_settings overrides tag_suffix).

(** The lock only orders concurrent callers; one caller at a time runs
    the body as written. *)
Definition get_tag_configuration (reload : bool) : M (option loc) :=
  if reload then
    c <- load None ;;
    write_cache (Some c) ;;;
    read_cache
  else
    cache <- read_cache ;;
    when (negb (bool_decide (is_Some cache)))
      (cache <- read_cache ;;
       when (negb (bool_decide (is_Some cache)))
         (c <- load None ;;
          write_cache (Some c))) ;;;
    read_cache.

End Loader.

(** ** A runtime for running the functions on concrete rows

    [float] accepts far more than this; the instance reads the plain
    decimal integers, which a [float] holds exactly up to 2^53. *)

Fixpoint digits_value (acc : N) (s : string) : option N :=
  match s with
  | EmptyString => Some acc
  | String c s' =>
      let n := N_of_ascii c in
      if ((48 <=? n) && (n <=? 57))%N then digits_value (acc * 10 + (n - 48)) s'
      else None
  end.

Definition integer_literal (s : string) : option Z :=
  match s with
  | EmptyString => None
  | String "-" (String c s') => Z.opp <$> (Z.of_N <$> digits_value 0 (String c s'))
  | _ => Z.of_N <$> digits_value 0 s
  end.

Definition integer_floats : PyFloat :=
  {| float := Z; float_of_str := integer_literal |}.

(** ** The tag-identifying cell, as the specification words it

    The trimmed cell under a recognized header is the one of the last
    column whose header normalizes to that name; the tag-identifying cell
    is the first non-empty of the cells under [tagname] and [tag], and
    the empty string when neither has text. *)

Definition scan_item (name : string) (found : option string) (item : raw_item)
  : option string :=
  match item with
  | Field key value =>
      if decide (_normalize_key key = name) then Text.strip <$> value else found
  | Rest _ => found
  end.

Definition cell_under (name : string) (raw_row : list raw_item) : option string :=
  foldl (scan_item name) None raw_row.

Definition tag_cell (raw_row : list raw_item) : string :=
  default "" (str_or (cell_under "tagname" raw_row) (cell_under "tag" raw_row)).

(** The literal markers of a default row. *)
Definition default_markers : list string := [""; "*"; "default"; "__default__"].

(** ** Functional summaries

    What the statements above do to the one object they work on, as
    functions on its value.  The lemmas of the next part show that the
    statements compute exactly these. *)

Section Summaries.
Context `{PyFloat}.

(** The eight conditional assignments of [_apply_override]. *)
Definition assign_scalars (override : TagSettingsOverride.t) (s : TagSettings.t)
  : TagSettings.t :=
  TagSettings.mk _
    (TagSettings.tag_name s)
    (match TagSettingsOverride.stash_name override with
     | Some v => if Text.truthy v then Some v else None
     | None => TagSettings.stash_name s
     end)
    (default (TagSettings.markers_enabled s) (TagSettingsOverride.markers_enabled override))
    (default (TagSettings.scene_tag_enabled s) (TagSettingsOverride.scene_tag_enabled override))
    (default (TagSettings.image_enabled s) (TagSettingsOverride.image_enabled override))
    (match TagSettingsOverride.required_scene_tag_duration override with
     | Some v => Some v
     | None => TagSettings.required_scene_tag_duration s
     end)
    (match TagSettingsOverride.min_marker_duration override with
     | Some v => Some v
     | None => TagSettings.min_marker_duration s
     end)
    (match TagSettingsOverride.max_gap override with
     | Some v => Some v
     | None => TagSettings.max_gap s
     end)
    (default (TagSettings.merge_strategy s) (TagSettingsOverride.merge_strategy override))
    (TagSettings.merge_params s).

(** All of [_apply_override]: the object's value when it returns or raises. *)
Definition override_effect (override : TagSettingsOverride.t) (s : TagSettings.t)
  : TagSettings.t * outcome unit :=
  let s1 := assign_scalars override s in
  if seq_truthy (TagSettingsOverride.merge_params override) then
    match merge_positions 0 (TagSettingsOverride.merge_params override)
            (TagSettings.merge_params s) with
    | Returned merged => (TagSettings.set_merge_params merged s1, Returned tt)
    | Raised e => (s1, Raised e)
    end
  else (s1, Returned tt).

(** The two fallback derivations that end [resolve]. *)
Definition fallbacks (normalized tag_suffix : string) (s : TagSettings.t)
  : TagSettings.t :=
  let s1 :=
    if negb (opt_truthy (TagSettings.stash_name s))
    then TagSettings.set_stash_name
           (Some (if Text.truthy normalized then normalized +:+ tag_suffix
                  else normalized)) s
    else s in
  if negb (Text.truthy (TagSettings.merge_strategy s1))
  then TagSettings.set_merge_strategy "default" s1
  else s1.

(** The override [resolve] looks up for a trimmed tag name. *)
Definition override_for (overrides : gmap string TagSettingsOverride.t)
    (normalized : string) : option TagSettingsOverride.t :=
  if Text.truthy normalized then overrides !! Text.lower normalized else None.

(** What [resolve] does to the clone it makes. *)
Definition resolve_effect (override : option TagSettingsOverride.t)
    (normalized tag_suffix : string) (effective : loc) (s : TagSettings.t)
  : TagSettings.t * outcome loc :=
  match (match override with
         | Some o => override_effect o s
         | None => (s, Returned tt)
         end) with
  | (s', Returned _) => (fallbacks normalized tag_suffix s', Returned effective)
  | (s', Raised e) => (s', Raised e)
  end.

(** The snapshot at [self]: its configuration object, the value of its
    global settings object and the contents of its overrides dict. *)
Definition snapshot (st : State) (self : loc) (cfg : TagConfiguration.t)
    (global : TagSettings.t) (overrides : gmap string TagSettingsOverride.t) : Prop :=
  config_objs st !! self = Some cfg
  /\ settings_objs st !! TagConfiguration._global_settings cfg = Some global
  /\ dict_objs st !! TagConfiguration._overrides cfg = Some overrides.

(** Tuples as the dataclasses declare them: five positions. *)
Definition five_positions (global : TagSettings.t)
    (overrides : gmap string TagSettingsOverride.t) : Prop :=
  length (TagSettings.merge_params global) = 5
  /\ map_Forall (fun _ o => length (TagSettingsOverride.merge_params o) = 5) overrides.

(** How an iteration ends: the reader is exhausted or it raises. *)
Definition reader_end (failure : option exc) : outcome unit :=
  match failure with
  | Some e => Raised e
  | None => Returned tt
  end.

(** The loop of [load] on the value of the global settings object and
    the contents of the overrides dict. *)
Fixpoint rows_effect (idx : nat) (rows : list (list raw_item)) (failure : option exc)
    (s : TagSettings.t) (m : gmap string TagSettingsOverride.t)
  : TagSettings.t * gmap string TagSettingsOverride.t * outcome unit :=
  match rows with
  | [] => (s, m, reader_end failure)
  | raw_row :: rows' =>
      match _parse_row idx raw_row with
      | (_, None) => rows_effect (S idx) rows' failure s m
      | (None, Some o) =>
          match override_effect o s with
          | (s', Returned _) => rows_effect (S idx) rows' failure s' m
          | (s', Raised e) => (s', m, Raised e)
          end
      | (Some k, Some o) => rows_effect (S idx) rows' failure s (<[k := o]> m)
      end
  end.

(** The value of the base after [_apply_override]. *)
Definition apply_value (s : TagSettings.t) (o : TagSettingsOverride.t) : TagSettings.t :=
  (override_effect o s).1.

(** [overrides[tag_key] = override] for a fragment with a tag key. *)
Definition store_fragment (m : gmap string TagSettingsOverride.t)
    (fr : option string * option TagSettingsOverride.t)
  : gmap string TagSettingsOverride.t :=
  match fr with
  | (Some k, Some o) => <[k := o]> m
  | _ => m
  end.

(** What a fragment of [_parse_row] can hold. *)
Definition parsed (o : TagSettingsOverride.t) : Prop :=
  length (TagSettingsOverride.merge_params o) = 5
  /\ TagSettingsOverride.stash_name o <> Some "".

(** The fragments of the rows, numbered from [idx] as [enumerate] does. *)
Fixpoint fragments (idx : nat) (rows : list (list raw_item))
  : list (option string * option TagSettingsOverride.t) :=
  match rows with
  | [] => []
  | raw_row :: rows' => _parse_row idx raw_row :: fragments (S idx) rows'
  end.

(** The overrides of the default rows, in file order. *)
Definition default_rows (frs : list (option string * option TagSettingsOverride.t))
  : list TagSettingsOverride.t :=
  omap (fun fr => match fr with (None, Some o) => Some o | _ => None end) frs.

(** The overrides of the rows whose tag key is [k], in file order. *)
Definition rows_for (k : string)
    (frs : list (option string * option TagSettingsOverride.t))
  : list TagSettingsOverride.t :=
  omap (fun fr => match fr with
                  | (Some k', Some o) => if decide (k' = k) then Some o else None
                  | _ => None
                  end) frs.

(** The last value that is not [None]. *)
Fixpoint last_some {A} (l : list (option A)) : option A :=
  match l with
  | [] => None
  | x :: l' => match last_some l' with
               | Some a => Some a
               | None => x
               end
  end.

(** The file system after the provisioning step of [load]. *)
Definition provision (config_path template_path : string) (w : World) : World :=
  match files w !! config_path with
  | Some _ => w
  | None =>
      match files w !! template_path with
      | Some f =>
          if copyfile_fails w then
            match partial_copy w with
            | Some part => with_files (<[config_path := part]> (files w)) w
            | None => w
            end
          else with_files (<[config_path := f]> (files w)) w
      | None => w
      end
  end.

(** The values [load] leaves in the global settings object and in the
    overrides dict, for the file it finds. *)
Definition loaded (f : option csv_file)
  : TagSettings.t * gmap string TagSettingsOverride.t :=
  match f with
  | Some f => (rows_effect 2 (data_rows f) (failure f) builtin_defaults ∅).1
  | None => (builtin_defaults, ∅)
  end.

(** [m] touches only the object at [obj], and does to it what [f] says. *)
Definition runs_on {A} (obj : loc) (m : M A)
    (f : TagSettings.t -> TagSettings.t * outcome A) : Prop :=
  forall st s, settings_objs st !! obj = Some s ->
    m st = (with_settings (<[obj := (f s).1]> (settings_objs st)) st, (f s).2).

(** Sequencing of two summaries. *)
Definition then_on {A B} (f : TagSettings.t -> TagSettings.t * outcome A)
    (g : A -> TagSettings.t -> TagSettings.t * outcome B)
  : TagSettings.t -> TagSettings.t * outcome B :=
  fun s => match f s with
           | (s', Returned a) => g a s'
           | (s', Raised e) => (s', Raised e)
           end.

End Summaries.

(** ** The store as a sequential state machine

    What can happen between two calls of [get_tag_configuration]: a plain
    call, a direct [TagConfiguration.load], a [resolve] on any object,
    and any change of the world outside (files edited, settings
    changed).  A reload is not among them. *)

Inductive op :=
  | PlainGet
  | DirectLoad (base_path : option string)
  | Resolve (self : loc) (tag_name : string)
  | WorldChange (w : World).

Section Machine.
Context `{PyFloat}.

Definition exec (st : State) (o : op) : State :=
  match o with
  | PlainGet => (get_tag_configuration false st).1
  | DirectLoad base_path => (load base_path st).1
  | Resolve self tag_name => (resolve self tag_name st).1
  | WorldChange w => with_world w st
  end.

Definition run (ops : list op) (st : State) : State := foldl exec st ops.

(** Every object of [st] is still there, unchanged, in [st']. *)
Definition extends (st st' : State) : Prop :=
  settings_objs st `prefix_of` settings_objs st'
  /\ dict_objs st `prefix_of` dict_objs st'
  /\ config_objs st `prefix_of` config_objs st'.

End Machine.

(** ** Sample rows, files and states *)

Section Samples.
#[local] Existing Instance integer_floats.

Definition plugin_dir : string := "/plugins/skier_aitagging_plugin".

(** A world whose only file is the plugin's [tag_settings.csv]. *)
Definition world_with (f : csv_file) : World :=
  {| plugin_root := plugin_dir;
     files := <[path_join plugin_dir _CONFIG_FILENAME := f]> ∅;
     unexaminable := ∅;
     copyfile_fails := false;
     partial_copy := None;
     plugin_setting := NoRow |}.

(** A world with neither the configuration file nor the template. *)
Definition bare_world : World :=
  {| plugin_root := plugin_dir; files := ∅; unexaminable := ∅;
     copyfile_fails := false; partial_copy := None; plugin_setting := NoRow |}.

(** The program before anything was loaded. *)
Definition fresh (w : World) : State := mkState _ [] [] [] w None.

Definition row_star : list raw_item :=
  [Field "TagName" (Some "*"); Field "StashName" (Some "");
   Field "MarkersEnabled" (Some "false"); Field "MaxGap" (Some "")].

Definition row_Cat : list raw_item :=
  [Field "TagName" (Some "Cat"); Field "StashName" (Some "Feline");
   Field "MarkersEnabled" (Some ""); Field "MaxGap" (Some "3")].

Definition row_CAT : list raw_item :=
  [Field "TagName" (Some "CAT"); Field "StashName" (Some "");
   Field "MarkersEnabled" (Some "yes"); Field "MaxGap" (Some "")].

Definition row_Default : list raw_item :=
  [Field "TagName" (Some "Default"); Field "StashName" (Some "");
   Field "MarkersEnabled" (Some "no"); Field "MaxGap" (Some "")].

Definition row_blank : list raw_item :=
  [Field "TagName" (Some "  "); Field "StashName" (Some "");
   Field "MarkersEnabled" (Some " "); Field "MaxGap" None].

(** Two rows for the same tag in different case, after a default row. *)
Definition cats_file : csv_file :=
  {| data_rows := [row_star; row_Cat; row_CAT]; failure := None |}.

(** A file whose first two rows decode and whose rest does not: the
    reader yields the two rows and then raises. *)
Definition truncated_file : csv_file :=
  {| data_rows := [row_star; row_Cat]; failure := Some UnicodeDecodeError |}.

(** What [_parse_row] makes of [row_CAT] and [row_Cat]. *)
Definition override_CAT : TagSettingsOverride.t :=
  TagSettingsOverride.mk _ None (Some true) None None None None None None
    [None; None; None; None; None].

Definition override_Cat : TagSettingsOverride.t :=
  TagSettingsOverride.mk _ (Some "Feline") None None None None None (Some 3%Z) None
    [None; None; None; None; None].

(** A base and an override for the merge: [False], zero and the empty
    [stash_name] in the override, index 2 alone in its [merge_params]. *)
Definition sample_base : TagSettings.t :=
  TagSettings.mk _ "cat" (Some "Feline") true true false None (Some 2%Z) (Some 7%Z)
    "default" [Some 1%Z; None; Some 5%Z; None; Some 9%Z].

Definition sample_override : TagSettingsOverride.t :=
  TagSettingsOverride.mk _ (Some "") (Some false) None None None None (Some 0%Z) None
    [None; None; Some 4%Z; None; None].

Definition sample_state : State := mkState _ [sample_base] [] [] bare_world None.

(** The state after a first [load] of [cats_file], and its snapshot. *)
Definition cats_state : State := (load None (fresh (world_with cats_file))).1.

Definition cats_config : TagConfiguration.t :=
  TagConfiguration.mk (path_join plugin_dir _CONFIG_FILENAME) 0 0 "_AI".

Definition cats_global : TagSettings.t :=
  TagSettings.mk _ "__global__" None false true false None None None "default"
    [None; None; None; None; None].

Definition cats_overrides : gmap string TagSettingsOverride.t :=
  <["cat" := override_CAT]> ∅.

End Samples.

(** ** Overrides without opinions *)

Section NoOpinion.
Context `{PyFloat}.

(** No field of the override holds a value: what [TagSettingsOverride()]
    is, and what a row with nothing but a tag name parses to. *)
Definition no_opinion (o : TagSettingsOverride.t) : Prop :=
  TagSettingsOverride.stash_name o = None
  /\ TagSettingsOverride.markers_enabled o = None
  /\ TagSettingsOverride.scene_tag_enabled o = None
  /\ TagSettingsOverride.image_enabled o = None
  /\ TagSettingsOverride.required_scene_tag_duration o = None
  /\ TagSettingsOverride.min_marker_duration o = None
  /\ TagSettingsOverride.max_gap o = None
  /\ TagSettingsOverride.merge_strategy o = None
  /\ Forall (fun v => v = None) (TagSettingsOverride.merge_params o).

(** [TagSettingsOverride()]: the defaults of the dataclass. *)
Definition empty_override : TagSettingsOverride.t :=
  TagSettingsOverride.mk _ None None None None None None None None
    [None; None; None; None; None].

End NoOpinion.

(** ** What a loaded snapshot holds *)

Section WellFormed.
Context `{PyFloat}.

(** A key of the overrides dict as [_parse_row] makes it: not empty, not
    the marker ["*"], and its own lower-casing. *)
Definition tag_key (k : string) : Prop :=
  k <> "" /\ k <> "*" /\ Text.lower k = k.

(** An override as [_parse_row] makes it: five positions, and text
    fields that are absent rather than empty. *)
Definition from_row (o : TagSettingsOverride.t) : Prop :=
  length (TagSettingsOverride.merge_params o) = 5
  /\ TagSettingsOverride.stash_name o <> Some ""
  /\ TagSettingsOverride.merge_strategy o <> Some "".

(** A global baseline as [load] leaves it. *)
Definition baseline (g : TagSettings.t) : Prop :=
  TagSettings.tag_name g = "__global__"
  /\ TagSettings.stash_name g <> Some ""
  /\ TagSettings.merge_strategy g <> ""
  /\ length (TagSettings.merge_params g) = 5.

End WellFormed.

(** ** Rows that say the same *)

(** Two entries of a row say the same when their headers normalize to the
    same key and their cells agree once trimmed; what the surplus cells
    of a long row hold does not matter. *)
Definition same_item (i j : raw_item) : Prop :=
  match i, j with
  | Field key value, Field key' value' =>
      _normalize_key key = _normalize_key key'
      /\ Text.strip <$> value = Text.strip <$> value'
  | Rest _, Rest _ => True
  | _, _ => False
  end.

(** The headers that identify the tag. *)
Definition tag_headers : list string := ["tagname"; "tag"].

Section Behaviour.
Context `{PyFloat}.

(** Two settings agree on everything but their names: the toggles, the
    thresholds, the merge strategy and its parameters. *)
Definition same_behaviour (s s' : TagSettings.t) : Prop :=
  TagSettings.markers_enabled s = TagSettings.markers_enabled s'
  /\ TagSettings.scene_tag_enabled s = TagSettings.scene_tag_enabled s'
  /\ TagSettings.image_enabled s = TagSettings.image_enabled s'
  /\ TagSettings.required_scene_tag_duration s = TagSettings.required_scene_tag_duration s'
  /\ TagSettings.min_marker_duration s = TagSettings.min_marker_duration s'
  /\ TagSettings.max_gap s = TagSettings.max_gap s'
  /\ TagSettings.merge_strategy s = TagSettings.merge_strategy s'
  /\ TagSettings.merge_params s = TagSettings.merge_params s'.

End Behaviour.

(** ** Header spellings *)

(** A text without the separators that [_normalize_key] removes. *)
Definition squeeze (s : string) : string :=
  Text.remove_char "_" (Text.remove_char "-" (Text.remove_char " " s)).

(** The only white space in the text is the space character: no tab,
    line break or other white space, as in a header typed on one line. *)
Definition spaces_only (s : string) : Prop :=
  Forall (fun c => Text.isspace c = true -> c = " "%char) (list_ascii_of_string s).

(** [remove_char] on the characters of a text. *)
Fixpoint without (c : ascii) (l : list ascii) : list ascii :=
  match l with
  | [] => []
  | d :: l' => if Ascii.eqb c d then without c l' else d :: without c l'
  end.

(** ** The Stash client: [stash_ai_server/utils/stash_api.py]

    [StashInterface] is a library: what its calls answer, and what they
    do on the server, is the interface [StashServer].  A tag as the
    library returns it is a dict; of its keys the code reads ["id"] and
    ["name"], an [int] and a [str] as the annotations of the caches have
    them.  The two caches are attributes of the class, shared by every
    use of the one [stash_api] object: they are part of its state. *)

(** What these modules raise: the three errors of the code's own
    attribute and item accesses, whatever a request to the server raises,
    and an exception that comes out of [tag_config]. *)
Inductive api_exc :=
  | AttributeError
  | TypeError
  | KeyError
  | RequestError
  | FromConfig (e : exc).

Inductive answer (A : Type) :=
  | Ok (a : A)
  | Fails (e : api_exc).
Arguments Ok {A} a.
Arguments Fails {A} e.

Record tag_dict := {
  id_field : option Z;
  name_field : option string;
  other_fields : bool
}.

(** Truth value of a dict: it has a key. *)
Definition dict_truthy (d : tag_dict) : bool :=
  bool_decide (is_Some (id_field d)) || bool_decide (is_Some (name_field d))
  || other_fields d.

Class StashServer := {
  server : Type;
  (** [find_tag(tag_name)] and [find_tag(tag_name, create=True)] *)
  find_tag_by_name : string -> bool -> server -> server * answer (option tag_dict);
  (** [find_tag(tag_id)] *)
  find_tag_by_id : Z -> server -> server * answer (option tag_dict);
  (** [create_tag({"name": tag_name, "ignore_auto_tag": True,
                   "parent_ids": [parent_id]})] *)
  create_tag : string -> Z -> server -> server * answer (option tag_dict)
}.

(** The [StashAPI] object: whether [stash_interface] was constructed, the
    server behind it, and the two caches. *)
Record Api_ {S : Type} := mkApi {
  stash_interface : bool;
  remote : S;
  tag_id_cache : gmap string Z;
  tag_name_cache : gmap Z string
}.
Arguments Api_ : clear implicits.
Arguments mkApi : clear implicits.

(** The client over the server's states. *)
Abbreviation Api := (Api_ server).

(** [_have_valid_api_key]; the key is a [str] or [None]. *)
Definition _have_valid_api_key (api_key : option string) : bool :=
  match api_key with
  | None => false
  | Some api_key =>
      Text.truthy api_key
      && negb (String.eqb api_key "REPLACE_WITH_API_KEY")
      && negb (String.eqb (Text.strip api_key) "")
  end.

Section Client.
Context `{StashServer}.

Definition with_remote (v : server) (api : Api) : Api :=
  mkApi _ (stash_interface api) v (tag_id_cache api) (tag_name_cache api).

(** [tag["id"] if tag else None] *)
Definition id_if_truthy (tag : option tag_dict) : answer (option Z) :=
  match tag with
  | None => Ok None
  | Some d =>
      if dict_truthy d then
        match id_field d with
        | Some i => Ok (Some i)
        | None => Fails KeyError
        end
      else Ok None
  end.

(** The part of [fetch_tag_id] that asks the server: the server after
    the calls, and the value of [tag] or the exception. *)
Definition ask_tag_id (tag_name : string) (parent_id : option Z)
    (create_if_missing : bool) (srv : server) : server * answer (option Z) :=
  if create_if_missing then
    match parent_id with
    | None =>
        match find_tag_by_name tag_name true srv with
        | (srv', Ok (Some d)) =>
            (srv', match id_field d with
                   | Some i => Ok (Some i)
                   | None => Fails KeyError
                   end)
        | (srv', Ok None) => (srv', Fails TypeError)
        | (srv', Fails e) => (srv', Fails e)
        end
    | Some parent_id =>
        match find_tag_by_name tag_name false srv with
        | (srv', Ok (Some d)) => (srv', id_if_truthy (Some d))
        | (srv', Ok None) =>
            match create_tag tag_name parent_id srv' with
            | (srv'', Ok tag) => (srv'', id_if_truthy tag)
            | (srv'', Fails e) => (srv'', Fails e)
            end
        | (srv', Fails e) => (srv', Fails e)
        end
    end
  else
    match find_tag_by_name tag_name false srv with
    | (srv', Ok tag) => (srv', id_if_truthy tag)
    | (srv', Fails e) => (srv', Fails e)
    end.

(** [fetch_tag_id]; the dict [add_to_cache] of the caller is given and
    handed back. *)
Definition fetch_tag_id (tag_name : string) (parent_id : option Z)
    (create_if_missing use_cache : bool) (add_to_cache : option (gmap string Z))
    (api : Api)
  : Api * option (gmap string Z) * answer (option Z) :=
  match (if use_cache then tag_id_cache api !! tag_name else None) with
  | Some cached => (api, add_to_cache, Ok (Some cached))
  | None =>
      if negb (stash_interface api) then (api, add_to_cache, Fails AttributeError)
      else
        match ask_tag_id tag_name parent_id create_if_missing (remote api) with
        | (srv', Fails e) => (with_remote srv' api, add_to_cache, Fails e)
        | (srv', Ok tag) =>
            match tag with
            | Some i =>
                if bool_decide (i <> 0%Z) then
                  (mkApi _ (stash_interface api) srv'
                     (<[tag_name := i]> (tag_id_cache api))
                     (<[i := tag_name]> (tag_name_cache api)),
                   match add_to_cache with
                   | Some cache =>
                       Some (if bool_decide (is_Some (cache !! tag_name)) then cache
                             else <[tag_name := i]> cache)
                   | None => None
                   end,
                   Ok (Some i))
                else (with_remote srv' api, add_to_cache, Ok None)
            | None => (with_remote srv' api, add_to_cache, Ok None)
            end
        end
  end.

(** The body of the [try] in [get_stash_tag_name]. *)
Definition lookup_tag_name (tag_id : Z) (api : Api) : Api * answer (option string) :=
  if negb (stash_interface api) then (api, Fails AttributeError)
  else
    match find_tag_by_id tag_id (remote api) with
    | (srv', Fails e) => (with_remote srv' api, Fails e)
    | (srv', Ok tag_data) =>
        match tag_data with
        | Some d =>
            if dict_truthy d then
              match name_field d with
              | Some name =>
                  (mkApi _ (stash_interface api) srv'
                     (<[name := tag_id]> (tag_id_cache api))
                     (<[tag_id := name]> (tag_name_cache api)),
                   Ok (Some name))
              | None => (with_remote srv' api, Ok None)
              end
            else (with_remote srv' api, Ok None)
        | None => (with_remote srv' api, Ok None)
        end
    end.

Definition get_stash_tag_name (tag_id : Z) (api : Api) : Api * answer (option string) :=
  match tag_name_cache api !! tag_id with
  | Some name => (api, Ok (Some name))
  | None =>
      match lookup_tag_name tag_id api with
      | (api', Ok r) => (api', Ok r)
      | (api', Fails _) => (api', Ok None)
      end
  end.

(** Every id in one cache is a key of the other, and every name in one
    cache is a key of the other. *)
Definition caches_linked (api : Api) : Prop :=
  (forall name i, tag_id_cache api !! name = Some i -> is_Some (tag_name_cache api !! i))
  /\ (forall i name, tag_name_cache api !! i = Some name -> is_Some (tag_id_cache api !! name)).

End Client.

(** ** Helpers of the plugin: [skier_aitagging_plugin/utils.py] *)

(** [extract_tags_from_response]: the loop over [response.items()] is a
    fold over the mapping; [None] has no [items].  The result is the
    [defaultdict] the loop filled, taken by its items. *)
Definition extract_tags_from_response {V : Type} (response : option (gmap string V))
  : answer (gmap string V) :=
  match response with
  | None => Fails AttributeError
  | Some response =>
      Ok (map_fold
            (fun key value categorized =>
               if String.eqb key "error" then categorized
               else <[key := value]> categorized)
            ∅ response)
  end.

(** [a or b] for [a : str | None] and [b : str]. *)
Definition or_text (a : option string) (b : string) : string :=
  match a with
  | Some a => if Text.truthy a then a else b
  | None => b
  end.

(** How [resolve_image_tag_id_from_label] ends: with [None], or with the
    call [resolve_ai_tag_reference(stash_name)] whose answer it hands on. *)
Inductive tag_reference :=
  | NoReference
  | Reference (stash_name : string).

Section Plugin.
Context `{PyFloat} `{StashServer}.

Definition resolve_image_tag_id_from_label (label : option string) (config : loc)
  : M tag_reference :=
  let normalized := Text.strip (or_text label "") in
  if negb (Text.truthy normalized) then ret NoReference
  else
    settings <- resolve config normalized ;;
    image_enabled <- getattr settings TagSettings.image_enabled ;;
    if negb image_enabled then ret NoReference
    else
      stash_name <- getattr settings TagSettings.stash_name ;;
      let stash_name := or_text stash_name normalized in
      if negb (Text.truthy stash_name) then ret NoReference
      else ret (Reference stash_name).

(** [resolve_ai_tag_reference] of [stash_handler]: it answers with an id
    or [None], or raises, and may act on the objects of the
    configuration and on the client. *)
Variable resolve_ai_tag_reference :
  string -> State * Api -> (State * Api) * answer (option Z).

(** The three statements of the loop of [filter_enabled_tag_ids] on the
    configuration: [None] stands for [continue]. *)
Definition enabled_stash_name (config : loc) (tag_name : string) : M (option string) :=
  settings <- resolve config tag_name ;;
  image_enabled <- getattr settings TagSettings.image_enabled ;;
  if negb image_enabled then ret None
  else
    stash_name <- getattr settings TagSettings.stash_name ;;
    ret (Some (or_text stash_name tag_name)).

(** The loop of [filter_enabled_tag_ids] from its current position. *)
Fixpoint filter_loop (tag_ids : list Z) (config : loc) (filtered : list Z)
    (applied : gset Z) (st : State) (api : Api)
  : (State * Api) * answer (list Z) :=
  match tag_ids with
  | [] => ((st, api), Ok filtered)
  | tag_id :: tag_ids =>
      match get_stash_tag_name tag_id api with
      | (api, Fails e) => ((st, api), Fails e)
      | (api, Ok tag_name) =>
          if negb (opt_truthy tag_name) then
            filter_loop tag_ids config filtered applied st api
          else
            match enabled_stash_name config (or_text tag_name "") st with
            | (st, Raised e) => ((st, api), Fails (FromConfig e))
            | (st, Returned None) =>
                filter_loop tag_ids config filtered applied st api
            | (st, Returned (Some stash_name)) =>
                match (if Text.truthy stash_name
                       then resolve_ai_tag_reference stash_name (st, api)
                       else ((st, api), Ok None)) with
                | (rt, Fails e) => (rt, Fails e)
                | ((st, api), Ok None) =>
                    filter_loop tag_ids config filtered applied st api
                | ((st, api), Ok (Some candidate)) =>
                    if bool_decide (candidate ∈ applied) then
                      filter_loop tag_ids config filtered applied st api
                    else
                      filter_loop tag_ids config (filtered ++ [candidate])
                        ({[candidate]} ∪ applied) st api
                end
            end
      end
  end.

Definition filter_enabled_tag_ids (tag_ids : list Z) (config : loc)
    (st : State) (api : Api) : (State * Api) * answer (list Z) :=
  filter_loop tag_ids config [] ∅ st api.

End Plugin.

(** ** More samples *)

(** A server that keeps its tags in a list of ids and names and numbers
    a new tag after the ones it has. *)
Definition tag_of (i : Z) (name : string) : tag_dict :=
  {| id_field := Some i; name_field := Some name; other_fields := false |}.

Definition listed_find_name (name : string) (create : bool) (tags : list (Z * string))
  : list (Z * string) * answer (option tag_dict) :=
  match List.find (fun t => String.eqb t.2 name) tags with
  | Some t => (tags, Ok (Some (tag_of t.1 name)))
  | None =>
      if create then
        let i := Z.of_nat (S (length tags)) in
        ((tags ++ [(i, name)])%list, Ok (Some (tag_of i name)))
      else (tags, Ok None)
  end.

Definition listed_find_id (i : Z) (tags : list (Z * string))
  : list (Z * string) * answer (option tag_dict) :=
  match List.find (fun t => Z.eqb t.1 i) tags with
  | Some t => (tags, Ok (Some (tag_of i t.2)))
  | None => (tags, Ok None)
  end.

Definition listed_create (name : string) (parent_id : Z) (tags : list (Z * string))
  : list (Z * string) * answer (option tag_dict) :=
  let i := Z.of_nat (S (length tags)) in
  ((tags ++ [(i, name)])%list, Ok (Some (tag_of i name))).

Definition listed_tags : StashServer :=
  {| server := list (Z * string);
     find_tag_by_name := listed_find_name;
     find_tag_by_id := listed_find_id;
     create_tag := listed_create |}.

Section MoreSamples.
#[local] Existing Instance integer_floats.
#[local] Existing Instance listed_tags.

(** A world whose only file is the bundled template. *)
Definition template_world : World :=
  {| plugin_root := plugin_dir;
     files := <[path_join plugin_dir _TEMPLATE_FILENAME := cats_file]> ∅;
     unexaminable := ∅;
     copyfile_fails := false;
     partial_copy := None;
     plugin_setting := NoRow |}.

(** A world in which one directory cannot be examined. *)
Definition guarded_world : World :=
  {| plugin_root := plugin_dir; files := ∅; unexaminable := {[ "/srv/private" ]};
     copyfile_fails := false; partial_copy := None; plugin_setting := NoRow |}.

(** A world whose template cannot be copied in full: the copy fails and
    leaves the first row at the destination. *)
Definition half_copy_world : World :=
  {| plugin_root := plugin_dir;
     files := <[path_join plugin_dir _TEMPLATE_FILENAME := cats_file]> ∅;
     unexaminable := ∅;
     copyfile_fails := true;
     partial_copy := Some {| data_rows := [row_star]; failure := None |};
     plugin_setting := NoRow |}.

(** A file of rows without a value. *)
Definition blank_file : csv_file :=
  {| data_rows := [row_blank; row_blank]; failure := None |}.

(** [row_Cat] under other spellings of its headers and with padded cells. *)
Definition row_Cat_respelled : list raw_item :=
  [Field " tag_name " (Some " Cat"); Field "Stash-Name" (Some "Feline ");
   Field "markers enabled" (Some "  "); Field "MAX_GAP" (Some " 3")].

(** A row that names a tag and says nothing else. *)
Definition row_tag_only : list raw_item :=
  [Field "Tag Name" (Some "Dog"); Field "StashName" (Some " ");
   Field "MaxGap" None].

(** A file that enables images for every tag and names one tag. *)
Definition row_images : list raw_item :=
  [Field "TagName" (Some "*"); Field "StashName" (Some "");
   Field "ImageEnabled" (Some "yes")].

Definition row_Feline : list raw_item :=
  [Field "TagName" (Some "Cat"); Field "StashName" (Some "Feline");
   Field "ImageEnabled" (Some "")].

Definition images_file : csv_file :=
  {| data_rows := [row_images; row_Feline]; failure := None |}.

Definition images_state : State := (load None (fresh (world_with images_file))).1.

Definition images_global : TagSettings.t :=
  TagSettings.mk _ "__global__" None true true true None None None "default"
    [None; None; None; None; None].

Definition images_overrides : gmap string TagSettingsOverride.t :=
  <["cat" := TagSettingsOverride.mk _ (Some "Feline") None None None None None None None
               [None; None; None; None; None]]> ∅.

(** The settings [resolve] makes for ["Cat"] on that snapshot. *)
Definition images_Cat : TagSettings.t :=
  TagSettings.mk _ "Cat" (Some "Feline") true true true None None None "default"
    [None; None; None; None; None].

(** A client whose server holds no tag, and the client after it made the
    server create ["cat"]. *)
Definition start_api : Api := mkApi _ true [] ∅ ∅.

Definition cat_api : Api := mkApi _ true [(1%Z, "cat")] (<["cat" := 1%Z]> ∅) (<[1%Z := "cat"]> ∅).

(** A client that knows two tags by id, and a stand-in for
    [resolve_ai_tag_reference] that answers with the length of the name. *)
Definition named_api : Api :=
  mkApi _ true [(1%Z, "Cat"); (2%Z, "Dog")] ∅ ∅.

Definition length_reference (name : string) (rt : State * Api)
  : (State * Api) * answer (option Z) :=
  (rt, Ok (Some (Z.of_nat (String.length name)))).

End MoreSamples.

(** * Properties *)

(** ** Text *)

Section TextFacts.
Local Open Scope list_scope.

Lemma lstrip_chars_length l : length (Text.lstrip_chars l) <= length l.
Proof. induction l as [|c l IH]; simpl; [lia|]. destruct (Text.isspace c); simpl; lia. Qed.

Lemma lstrip_chars_idem l : Text.lstrip_chars (Text.lstrip_chars l) = Text.lstrip_chars l.
Proof.
  induction l as [|c l IH]; simpl; [done|].
  destruct (Text.isspace c) eqn:Hc; [done|]. simpl. by rewrite Hc.
Qed.

Lemma lstrip_chars_split l :
  exists p, l = p ++ Text.lstrip_chars l /\ forallb Text.isspace p = true.
Proof.
  induction l as [|c l (p & Hl & Hp)]; simpl; [by exists []|].
  destruct (Text.isspace c) eqn:Hc.
  - exists (c :: p). simpl. rewrite Hc, Hp. split; [by f_equal|done].
  - by exists [].
Qed.

Lemma lstrip_chars_blank l : forallb Text.isspace l = true -> Text.lstrip_chars l = [].
Proof.
  induction l as [|c l IH]; simpl; [done|].
  intros [Hc Hl]%andb_prop. rewrite Hc. auto.
Qed.

Lemma lstrip_chars_fixed_prefix x y :
  x <> [] -> Text.lstrip_chars (x ++ y) = x ++ y -> Text.lstrip_chars x = x.
Proof.
  destruct x as [|c x]; [done|]. intros _. simpl.
  destruct (Text.isspace c); [|done].
  intros Heq. pose proof (lstrip_chars_length (x ++ y)) as Hlen.
  rewrite Heq in Hlen. simpl in Hlen. lia.
Qed.

Lemma strip_chars_idem l : Text.strip_chars (Text.strip_chars l) = Text.strip_chars l.
Proof.
  unfold Text.strip_chars.
  set (a := Text.lstrip_chars l). set (b := Text.lstrip_chars (rev a)).
  assert (Hb : Text.lstrip_chars (rev b) = rev b).
  { destruct (lstrip_chars_split (rev a)) as (p & Hsplit & _). fold b in Hsplit.
    destruct (decide (rev b = [])) as [->|Hne]; [done|].
    apply (lstrip_chars_fixed_prefix _ (rev p)); [done|].
    rewrite <- rev_app_distr, <- Hsplit, rev_involutive.
    apply lstrip_chars_idem. }
  rewrite Hb, rev_involutive. unfold b. by rewrite lstrip_chars_idem.
Qed.

Lemma strip_idem s : Text.strip (Text.strip s) = Text.strip s.
Proof.
  unfold Text.strip.
  by rewrite list_ascii_of_string_of_list_ascii, strip_chars_idem.
Qed.

Lemma strip_blank s : Text.blank s = true -> Text.strip s = "".
Proof.
  unfold Text.blank, Text.strip, Text.strip_chars. intros Hs.
  by rewrite (lstrip_chars_blank _ Hs).
Qed.

Lemma truthy_false s : Text.truthy s = false <-> s = "".
Proof. by destruct s. Qed.

Lemma truthy_true s : Text.truthy s = true <-> s <> "".
Proof. by destruct s. Qed.

Lemma mem_elem_of text lits : Text.mem text lits = true <-> text ∈ lits.
Proof.
  unfold Text.mem. rewrite existsb_exists, list_elem_of_In. split.
  - by intros (x & Hin & ->%String.eqb_eq).
  - intros Hin. exists text. by rewrite String.eqb_refl.
Qed.

End TextFacts.

(** ** Running statements *)

Section Running.
Context `{PyFloat}.

Lemma with_settings_same (st : State) : with_settings (settings_objs st) st = st.
Proof. by destruct st. Qed.

Lemma bind_returned {A B} (m : M A) (k : A -> M B) st st' a :
  m st = (st', Returned a) -> bind m k st = k a st'.
Proof. unfold bind. by intros ->. Qed.

Lemma bind_raised {A B} (m : M A) (k : A -> M B) st st' e :
  m st = (st', Raised e) -> bind m k st = (st', Raised e).
Proof. unfold bind. by intros ->. Qed.

Lemma runs_on_ext {A} obj (m : M A) f g :
  (forall s, f s = g s) -> runs_on obj m f -> runs_on obj m g.
Proof. intros Hfg Hm st s Hs. rewrite <- Hfg. by apply Hm. Qed.

Lemma runs_on_ret {A} obj (a : A) : runs_on obj (ret a) (fun s => (s, Returned a)).
Proof.
  intros st s Hs. unfold ret. simpl.
  by rewrite list_insert_id, with_settings_same.
Qed.

Lemma runs_on_lift {A} obj (o : outcome A) : runs_on obj (lift o) (fun s => (s, o)).
Proof.
  intros st s Hs. unfold lift. simpl.
  by rewrite list_insert_id, with_settings_same.
Qed.

Lemma runs_on_getattr {A} obj (field : TagSettings.t -> A) :
  runs_on obj (getattr obj field) (fun s => (s, Returned (field s))).
Proof.
  intros st s Hs. unfold getattr. rewrite Hs. simpl.
  by rewrite list_insert_id, with_settings_same.
Qed.

Lemma runs_on_setattr obj assign :
  runs_on obj (setattr obj assign) (fun s => (assign s, Returned tt)).
Proof. intros st s Hs. unfold setattr. by rewrite Hs. Qed.

Lemma runs_on_bind {A B} obj (m : M A) (k : A -> M B) f g :
  runs_on obj m f -> (forall a, runs_on obj (k a) (g a)) ->
  runs_on obj (bind m k) (then_on f g).
Proof.
  intros Hm Hk st s Hs. unfold bind, then_on.
  rewrite (Hm st s Hs). destruct (f s) as [s' [a|e]]; simpl; [|done].
  assert (Hlt : obj < length (settings_objs st)) by (by eapply lookup_lt_Some).
  rewrite (Hk a _ s').
  - destruct st; simpl in *. by rewrite list_insert_insert_eq.
  - destruct st; simpl in *. by apply list_lookup_insert_eq.
Qed.

Lemma runs_on_if_not_none {A} obj (v : option A) body g :
  (forall a, runs_on obj (body a) (g a)) ->
  runs_on obj (if_not_none v body)
    (fun s => match v with Some a => g a s | None => (s, Returned tt) end).
Proof. intros Hb. destruct v; simpl; [apply Hb | apply runs_on_ret]. Qed.

Lemma runs_on_when obj (cond : bool) body g :
  runs_on obj body g ->
  runs_on obj (when cond body) (fun s => if cond then g s else (s, Returned tt)).
Proof. intros Hb. destruct cond; simpl; [apply Hb | apply runs_on_ret]. Qed.

Lemma _apply_override_effect base override :
  runs_on base (_apply_override base override) (override_effect override).
Proof.
  eapply runs_on_ext; [|unfold _apply_override;
    repeat first
      [ eapply runs_on_bind; [|intros ?]
      | eapply runs_on_if_not_none; intros ?
      | eapply runs_on_when
      | eapply runs_on_setattr
      | eapply runs_on_getattr
      | eapply runs_on_lift ] ].
  intros [n sn me se ie r mm mg ms mp].
  destruct override as [osn ome ose oie or_ omm omg oms omp].
  unfold then_on, override_effect, assign_scalars; simpl.
  destruct osn, ome, ose, oie, or_, omm, omg, oms; simpl;
    destruct (seq_truthy omp); simpl; try reflexivity;
    destruct (merge_positions 0 omp mp); reflexivity.
Qed.

End Running.

(** ** Override merge *)

Section OverrideMerge.
Context `{PyFloat}.

(** The position loop returns whenever the override tuple is no longer
    than the base tuple, and then every position holds the override's
    value where it has one and the base's value elsewhere. *)
Lemma merge_positions_returns (values : list (option float)) :
  forall idx merged,
    idx + length values <= length merged ->
    exists merged',
      merge_positions idx values merged = Returned merged'
      /\ length merged' = length merged
      /\ forall i,
           merged' !! i =
             match (if decide (idx <= i) then values !! (i - idx) else None) with
             | Some (Some v) => Some (Some v)
             | _ => merged !! i
             end.
Proof.
  induction values as [|[v|] values IH]; intros idx merged Hlen; simpl in *.
  - exists merged. repeat split. intros i. by case_decide.
  - case_decide; [|lia].
    destruct (IH (S idx) (<[idx := Some v]> merged)) as (merged' & Hrun & Hl & Hpos).
    { rewrite length_insert. lia. }
    exists merged'. rewrite length_insert in Hl. repeat split; [done..|].
    intros i. rewrite (Hpos i). repeat case_decide; try lia.
    + replace (i - idx) with (S (i - S idx)) by lia. simpl.
      destruct (values !! (i - S idx)) as [[?|]|]; try done;
        by rewrite list_lookup_insert_ne by lia.
    + assert (i = idx) as -> by lia. rewrite Nat.sub_diag. simpl.
      by apply list_lookup_insert_eq.
    + by rewrite list_lookup_insert_ne by lia.
  - destruct (IH (S idx) merged) as (merged' & Hrun & Hl & Hpos); [lia|].
    exists merged'. repeat split; [done..|].
    intros i. rewrite (Hpos i). repeat case_decide; try lia; try done.
    + replace (i - idx) with (S (i - S idx)) by lia. done.
    + assert (i = idx) as -> by lia. by rewrite Nat.sub_diag.
Qed.

Lemma override_effect_returns (override : TagSettingsOverride.t) (s : TagSettings.t) :
  length (TagSettingsOverride.merge_params override) <= length (TagSettings.merge_params s) ->
  exists merged,
    override_effect override s
      = (TagSettings.set_merge_params merged (assign_scalars override s), Returned tt)
    /\ length merged = length (TagSettings.merge_params s)
    /\ forall i,
         merged !! i =
           match TagSettingsOverride.merge_params override !! i with
           | Some (Some v) => Some (Some v)
           | _ => TagSettings.merge_params s !! i
           end.
Proof.
  intros Hlen. unfold override_effect.
  destruct (merge_positions_returns (TagSettingsOverride.merge_params override) 0
              (TagSettings.merge_params s)) as (merged & Hrun & Hl & Hpos); [lia|].
  destruct (seq_truthy (TagSettingsOverride.merge_params override)) eqn:Hne.
  - rewrite Hrun. exists merged. repeat split; [done|].
    intros i. rewrite (Hpos i). case_decide; [|lia]. by rewrite Nat.sub_0_r.
  - destruct (TagSettingsOverride.merge_params override); [|done].
    exists (TagSettings.merge_params s). split; [done|]. split; [done|].
    intros i. by rewrite lookup_nil.
Qed.

(** C4: [_apply_override] replaces a scalar field of the base exactly
    when the override holds a value for it ([False] and zero included,
    only [None] holds a field back) and leaves it as it was otherwise; an
    override [stash_name] of [""] clears the base's [stash_name] to
    [None].  [tag_name] has no counterpart in the override and stays. *)
Theorem apply_override_scalar_fields (st : State) (base : loc)
    (override : TagSettingsOverride.t) (s : TagSettings.t) :
  settings_objs st !! base = Some s ->
  exists s',
    settings_objs (_apply_override base override st).1 !! base = Some s'
    /\ TagSettings.tag_name s' = TagSettings.tag_name s
    /\ TagSettings.stash_name s' =
         match TagSettingsOverride.stash_name override with
         | None => TagSettings.stash_name s
         | Some v => if decide (v = "") then None else Some v
         end
    /\ TagSettings.markers_enabled s' =
         match TagSettingsOverride.markers_enabled override with
         | None => TagSettings.markers_enabled s
         | Some v => v
         end
    /\ TagSettings.scene_tag_enabled s' =
         match TagSettingsOverride.scene_tag_enabled override with
         | None => TagSettings.scene_tag_enabled s
         | Some v => v
         end
    /\ TagSettings.image_enabled s' =
         match TagSettingsOverride.image_enabled override with
         | None => TagSettings.image_enabled s
         | Some v => v
         end
    /\ TagSettings.required_scene_tag_duration s' =
         match TagSettingsOverride.required_scene_tag_duration override with
         | None => TagSettings.required_scene_tag_duration s
         | Some v => Some v
         end
    /\ TagSettings.min_marker_duration s' =
         match TagSettingsOverride.min_marker_duration override with
         | None => TagSettings.min_marker_duration s
         | Some v => Some v
         end
    /\ TagSettings.max_gap s' =
         match TagSettingsOverride.max_gap override with
         | None => TagSettings.max_gap s
         | Some v => Some v
         end
    /\ TagSettings.merge_strategy s' =
         match TagSettingsOverride.merge_strategy override with
         | None => TagSettings.merge_strategy s
         | Some v => v
         end.
Proof.
  intros Hs. rewrite (_apply_override_effect base override st s Hs). simpl.
  assert (Hlt : base < length (settings_objs st)) by (by eapply lookup_lt_Some).
  rewrite list_lookup_insert_eq by done.
  eexists. split; [done|].
  assert (Hscalars : forall (A : Type) (field : TagSettings.t -> A),
            (forall merged s1, field (TagSettings.set_merge_params merged s1) = field s1) ->
            field (override_effect override s).1 = field (assign_scalars override s)).
  { intros A field Hfield. unfold override_effect.
    destruct (seq_truthy _); [|done].
    by destruct (merge_positions _ _ _); simpl; rewrite ?Hfield. }
  rewrite !Hscalars by done.
  destruct override as [osn ome ose oie or_ omm omg oms omp]; simpl.
  repeat split; try by (destruct ome, ose, oie, or_, omm, omg, oms).
  destruct osn as [[|c v]|]; done.
Qed.

(** C5: the five positions of [merge_params] merge one by one: after
    [_apply_override], each position holds the override's value when
    that is not [None] and the base's earlier value otherwise, so an
    override with only index 2 set leaves indices 0, 1, 3, 4 as they
    were.  The call returns and the tuple keeps its five positions. *)
Theorem apply_override_merge_params_positions (st : State) (base : loc)
    (override : TagSettingsOverride.t) (s : TagSettings.t) :
  settings_objs st !! base = Some s ->
  length (TagSettingsOverride.merge_params override) = 5 ->
  length (TagSettings.merge_params s) = 5 ->
  exists st' s',
    _apply_override base override st = (st', Returned tt)
    /\ settings_objs st' !! base = Some s'
    /\ length (TagSettings.merge_params s') = 5
    /\ forall i, i < 5 ->
         TagSettings.merge_params s' !! i =
           match TagSettingsOverride.merge_params override !! i with
           | Some (Some v) => Some (Some v)
           | _ => TagSettings.merge_params s !! i
           end.
Proof.
  intros Hs Ho Hb. rewrite (_apply_override_effect base override st s Hs).
  destruct (override_effect_returns override s) as (merged & -> & Hl & Hpos); [lia|].
  assert (Hlt : base < length (settings_objs st)) by (by eapply lookup_lt_Some).
  eexists _, _. split; [done|]. simpl.
  rewrite list_lookup_insert_eq by done. split; [done|]. simpl.
  split; [lia|]. intros i _. apply Hpos.
Qed.

End OverrideMerge.

(** ** Row parser *)

Section RowParser.
Context `{PyFloat}.

Lemma cell_foldl (name : string) (raw_row : list raw_item) :
  forall normalized : gmap string (option string),
    cell (foldl normalize_item normalized raw_row) name
    = foldl (scan_item name) (cell normalized name) raw_row.
Proof.
  induction raw_row as [|[key value|cells] raw_row IH]; intros normalized; simpl; [done| |done].
  rewrite IH. f_equal. unfold cell. rewrite lookup_insert.
  by case_decide.
Qed.

Lemma cell_normalize_row (name : string) (raw_row : list raw_item) :
  cell (normalize_row raw_row) name = cell_under name raw_row.
Proof. unfold normalize_row, cell_under. by rewrite cell_foldl. Qed.

Lemma scan_stripped (name : string) (raw_row : list raw_item) :
  forall found : option string,
    (forall s, found = Some s -> Text.strip s = s) ->
    forall s, foldl (scan_item name) found raw_row = Some s -> Text.strip s = s.
Proof.
  induction raw_row as [|[key value|cells] raw_row IH]; intros found Hfound; simpl.
  - done.
  - apply IH. case_decide; [|done].
    intros s. destruct value as [v|]; simpl; [|done].
    intros [= <-]. apply strip_idem.
  - by apply IH.
Qed.

Lemma cell_under_stripped name raw_row s :
  cell_under name raw_row = Some s -> Text.strip s = s.
Proof. by apply scan_stripped. Qed.

(** The trimmed tag value of [_parse_row] is the tag-identifying cell. *)
Lemma tag_value_tag_cell (raw_row : list raw_item) :
  match str_or (cell (normalize_row raw_row) "tagname") (cell (normalize_row raw_row) "tag") with
  | Some s => Text.strip s
  | None => ""
  end = tag_cell raw_row.
Proof.
  rewrite !cell_normalize_row. unfold tag_cell, str_or.
  destruct (cell_under "tagname" raw_row) as [s|] eqn:Hname.
  - destruct (Text.truthy s); simpl.
    + by eapply cell_under_stripped.
    + destruct (cell_under "tag" raw_row) as [s'|] eqn:Htag; simpl; [|done].
      by eapply cell_under_stripped.
  - destruct (cell_under "tag" raw_row) as [s'|] eqn:Htag; simpl; [|done].
    by eapply cell_under_stripped.
Qed.

(** Every cell of a blank row normalizes to nothing or to the empty string. *)
Lemma normalize_blank (raw_row : list raw_item) :
  (forall key value, Field key (Some value) ∈ raw_row -> Text.blank value = true) ->
  forall normalized : gmap string (option string),
    map_Forall (fun _ v => v = None \/ v = Some "") normalized ->
    map_Forall (fun _ v => v = None \/ v = Some "") (foldl normalize_item normalized raw_row).
Proof.
  induction raw_row as [|[key value|cells] raw_row IH]; intros Hblank normalized Hn; simpl.
  - done.
  - apply IH.
    + intros k v Hin. apply (Hblank k v). by right.
    + apply map_Forall_insert_2; [|done].
      destruct value as [v|]; simpl; [|by left].
      right. f_equal. apply strip_blank, (Hblank key v). by left.
  - apply IH; [|done]. intros k v Hin. apply (Hblank k v). by right.
Qed.

Lemma any_value_blank (normalized : gmap string (option string)) :
  map_Forall (fun _ v => v = None \/ v = Some "") normalized ->
  any_value normalized = false.
Proof.
  intros Hn. unfold any_value. apply not_true_is_false.
  intros ([k v] & Hin & Hv)%existsb_exists.
  apply list_elem_of_In, elem_of_map_to_list in Hin.
  destruct (Hn k v Hin) as [->| ->]; simpl in Hv; done.
Qed.

Lemma parse_row_blank (row_number : nat) (raw_row : list raw_item) :
  (forall key value, Field key (Some value) ∈ raw_row -> Text.blank value = true) ->
  _parse_row row_number raw_row = (None, None).
Proof.
  intros Hblank. unfold _parse_row.
  rewrite any_value_blank; [done|].
  apply normalize_blank; [done|]. apply map_Forall_empty.
Qed.

(** A row that [_parse_row] takes for blank has an empty tag cell. *)
Lemma any_value_cell (normalized : gmap string (option string)) (name s : string) :
  any_value normalized = false ->
  cell normalized name = Some s -> Text.strip s = "".
Proof.
  intros Hany Hcell. unfold cell in Hcell.
  destruct (normalized !! name) as [v|] eqn:Hv; simpl in Hcell; [subst v|done].
  apply truthy_false. apply not_true_is_false. intros Htruthy.
  apply not_true_iff_false in Hany. apply Hany.
  apply existsb_exists. exists (name, Some s). split; [|done].
  by apply list_elem_of_In, elem_of_map_to_list.
Qed.

Lemma blank_tag_cell (raw_row : list raw_item) :
  any_value (normalize_row raw_row) = false -> tag_cell raw_row = "".
Proof.
  intros Hany. unfold tag_cell, str_or. rewrite <- !cell_normalize_row.
  assert (Hcell : forall name s,
            cell (normalize_row raw_row) name = Some s -> s = "").
  { intros name s Hs. pose proof (any_value_cell _ _ _ Hany Hs) as Hstrip.
    rewrite cell_normalize_row in Hs. by rewrite (cell_under_stripped _ _ _ Hs) in Hstrip. }
  destruct (cell (normalize_row raw_row) "tagname") as [s|] eqn:Hname.
  - rewrite (Hcell _ _ Hname). simpl.
    destruct (cell (normalize_row raw_row) "tag") as [s'|] eqn:Htag; [|done].
    by rewrite (Hcell _ _ Htag).
  - destruct (cell (normalize_row raw_row) "tag") as [s'|] eqn:Htag; [|done].
    by rewrite (Hcell _ _ Htag).
Qed.

(** C6: for every row that is not blank (one of its normalized values
    holds text), [_parse_row] returns a fragment, and it returns no tag
    key exactly when the trimmed tag-identifying cell is empty or is,
    case-sensitively, one of ["*"], ["default"], ["__default__"]: the
    row then carries a fragment for the global baseline.  For any other
    tag cell the row carries a fragment keyed by the cell lower-cased. *)
Theorem parse_row_tag_key (row_number : nat) (raw_row : list raw_item) :
  any_value (normalize_row raw_row) = true ->
  ((_parse_row row_number raw_row).1 = None <-> tag_cell raw_row ∈ default_markers)
  /\ (tag_cell raw_row ∈ default_markers ->
      exists override, _parse_row row_number raw_row = (None, Some override))
  /\ (tag_cell raw_row ∉ default_markers ->
      exists override,
        _parse_row row_number raw_row = (Some (Text.lower (tag_cell raw_row)), Some override)).
Proof.
  intros Hany. unfold _parse_row. rewrite tag_value_tag_cell, Hany. cbn [negb].
  destruct (Text.mem (tag_cell raw_row) [""; "*"; "default"; "__default__"]) eqn:Hmem;
    cbn [fst].
  - apply mem_elem_of in Hmem. split; [done|]. split; [by eexists|]. by intros [].
  - assert (Hnot : tag_cell raw_row ∉ default_markers).
    { intros Hin%mem_elem_of. unfold default_markers in Hin. congruence. }
    split; [done|]. split; [by intros ?|]. by eexists.
Qed.

(** C8: a row whose cells are all empty or white space gives no fragment
    (both outputs [None]), and the loader's loop passes over it: the
    store after the row is the store before it, and reading on from the
    row is reading on from the row after it. *)
Theorem blank_row_skipped (idx : nat) (raw_row : list raw_item)
    (rows : list (list raw_item)) (failure : option exc)
    (global_settings overrides : loc) (st : State) :
  (forall key value, Field key (Some value) ∈ raw_row -> Text.blank value = true) ->
  _parse_row idx raw_row = (None, None)
  /\ read_rows idx [raw_row] None global_settings overrides st = (st, Returned tt)
  /\ read_rows idx (raw_row :: rows) failure global_settings overrides st
     = read_rows (S idx) rows failure global_settings overrides st.
Proof.
  intros Hblank. pose proof (parse_row_blank idx raw_row Hblank) as Hrow.
  split; [done|]. simpl. rewrite Hrow. done.
Qed.

End RowParser.

(** ** Resolution *)

Section Resolution.
Context `{PyFloat}.

Lemma with_settings_twice (a b : list TagSettings.t) (st : State) :
  with_settings a (with_settings b st) = with_settings a st.
Proof. done. Qed.

(** The statements of [resolve] after the override lookup work on the
    clone alone. *)
Lemma resolve_tail_effect (effective : loc) (override : option TagSettingsOverride.t)
    (normalized tag_suffix : string) :
  runs_on effective
    (if_not_none override (fun override => _apply_override effective override) ;;;
     stash_name <- getattr effective TagSettings.stash_name ;;
     when (negb (opt_truthy stash_name))
       (setattr effective
          (TagSettings.set_stash_name
             (Some (if Text.truthy normalized
                    then normalized +:+ tag_suffix
                    else normalized)))) ;;;
     merge_strategy <- getattr effective TagSettings.merge_strategy ;;
     when (negb (Text.truthy merge_strategy))
       (setattr effective (TagSettings.set_merge_strategy "default")) ;;;
     ret effective)
    (resolve_effect override normalized tag_suffix effective).
Proof.
  eapply runs_on_ext;
    [|repeat first
        [ eapply _apply_override_effect
        | eapply runs_on_bind; [|intros ?]
        | eapply runs_on_if_not_none; intros ?
        | eapply runs_on_when
        | eapply runs_on_setattr
        | eapply runs_on_getattr
        | eapply runs_on_ret ] ].
  intros s. unfold then_on, resolve_effect, fallbacks. simpl.
  destruct override as [o|]; simpl.
  - destruct (override_effect o s) as [s' [[]|e]]; simpl; [|done].
    destruct (opt_truthy (TagSettings.stash_name s')); simpl;
      by destruct (negb (Text.truthy (TagSettings.merge_strategy s'))).
  - destruct (opt_truthy (TagSettings.stash_name s)); simpl;
      by destruct (negb (Text.truthy (TagSettings.merge_strategy s))).
Qed.

Lemma lookup_snoc {A} (l : list A) (x : A) : (l ++ [x])%list !! length l = Some x.
Proof. by rewrite lookup_app_r, Nat.sub_diag. Qed.

Lemma insert_snoc {A} (l : list A) (x y : A) :
  <[length l := y]> (l ++ [x])%list = (l ++ [y])%list.
Proof. rewrite insert_app_r_alt by done. by rewrite Nat.sub_diag. Qed.

Lemma resolve_run (st : State) self tag_name cfg global overrides :
  snapshot st self cfg global overrides ->
  let normalized := Text.strip tag_name in
  let effective := length (settings_objs st) in
  let clone := TagSettings.set_tag_name
                 (if Text.truthy normalized then normalized
                  else TagSettings.tag_name global) global in
  let r := resolve_effect (override_for overrides normalized) normalized
             (TagConfiguration._tag_suffix cfg) effective clone in
  resolve self tag_name st = (with_settings (settings_objs st ++ [r.1]) st, r.2).
Proof.
  intros (Hcfg & Hglobal & Hdict) normalized effective clone r.
  unfold resolve.
  erewrite bind_returned; [|unfold read_config; by rewrite Hcfg].
  erewrite bind_returned; [|unfold getattr; by rewrite Hglobal].
  erewrite bind_returned;
    [|unfold replace; erewrite bind_returned;
      [reflexivity|unfold getattr; by rewrite Hglobal]].
  fold normalized. simpl. fold effective. fold clone.
  erewrite (bind_returned _ _ _ _ (override_for overrides normalized)).
  2:{ unfold override_for. destruct (Text.truthy normalized); [|done].
      unfold dict_get. simpl. by rewrite Hdict. }
  rewrite (resolve_tail_effect effective _ normalized _ _ clone).
  - simpl. rewrite with_settings_twice. unfold effective. by rewrite insert_snoc.
  - simpl. apply lookup_snoc.
Qed.

Lemma override_effect_tag_name (o : TagSettingsOverride.t) (s : TagSettings.t) :
  TagSettings.tag_name (override_effect o s).1 = TagSettings.tag_name s.
Proof.
  unfold override_effect. destruct (seq_truthy _); [|done].
  by destruct (merge_positions _ _ _).
Qed.

Lemma override_effect_stash_name (o : TagSettingsOverride.t) (s : TagSettings.t) :
  TagSettings.stash_name (override_effect o s).1
  = match TagSettingsOverride.stash_name o with
    | Some v => if Text.truthy v then Some v else None
    | None => TagSettings.stash_name s
    end.
Proof.
  unfold override_effect. destruct (seq_truthy _); [|done].
  by destruct (merge_positions _ _ _).
Qed.

Lemma fallbacks_tag_name n sfx s :
  TagSettings.tag_name (fallbacks n sfx s) = TagSettings.tag_name s.
Proof.
  unfold fallbacks. destruct (negb (opt_truthy _)); simpl;
    by destruct (negb (Text.truthy _)).
Qed.

Lemma fallbacks_stash_name n sfx s :
  TagSettings.stash_name (fallbacks n sfx s)
  = if opt_truthy (TagSettings.stash_name s) then TagSettings.stash_name s
    else Some (if Text.truthy n then n +:+ sfx else n).
Proof.
  unfold fallbacks. destruct (opt_truthy _); simpl;
    by destruct (negb (Text.truthy _)).
Qed.

Lemma fallbacks_merge_strategy n sfx s :
  TagSettings.merge_strategy (fallbacks n sfx s) <> "".
Proof.
  unfold fallbacks. destruct (negb (opt_truthy _)); simpl;
    destruct (Text.truthy _) eqn:Ht; simpl; try done;
    by apply truthy_true.
Qed.

(** With five-position tuples [resolve] returns: it adds one object, the
    resolved settings, and changes nothing else. *)
Lemma resolve_returns (st : State) self tag_name cfg global overrides :
  snapshot st self cfg global overrides ->
  five_positions global overrides ->
  exists s,
    resolve self tag_name st
      = (with_settings (settings_objs st ++ [s]) st, Returned (length (settings_objs st)))
    /\ s = fallbacks (Text.strip tag_name) (TagConfiguration._tag_suffix cfg)
             (match override_for overrides (Text.strip tag_name) with
              | Some o =>
                  (override_effect o
                     (TagSettings.set_tag_name
                        (if Text.truthy (Text.strip tag_name) then Text.strip tag_name
                         else TagSettings.tag_name global) global)).1
              | None =>
                  TagSettings.set_tag_name
                    (if Text.truthy (Text.strip tag_name) then Text.strip tag_name
                     else TagSettings.tag_name global) global
              end).
Proof.
  intros Hsnap [Hg Ho]. rewrite (resolve_run _ _ _ _ _ _ Hsnap). simpl.
  unfold resolve_effect.
  destruct (override_for overrides (Text.strip tag_name)) as [o|] eqn:Hfor; [|by eexists].
  assert (Hlen : length (TagSettingsOverride.merge_params o) = 5).
  { unfold override_for in Hfor. destruct (Text.truthy _); [|done]. by apply Ho in Hfor. }
  edestruct (override_effect_returns o) as (merged & Heff & _); [|rewrite Heff].
  - simpl. lia.
  - by eexists.
Qed.


(** C2, as the code has it: [resolve] returns settings whose
    [stash_name] is a non-empty string whenever the trimmed input is
    non-empty, and whose [merge_strategy] is non-empty. *)
Theorem resolve_names_nonempty (st : State) (self : loc) (t : string)
    (cfg : TagConfiguration.t) (global : TagSettings.t)
    (overrides : gmap string TagSettingsOverride.t) :
  snapshot st self cfg global overrides ->
  five_positions global overrides ->
  exists st' effective s,
    resolve self t st = (st', Returned effective)
    /\ settings_objs st' !! effective = Some s
    /\ (Text.strip t <> "" ->
        exists name, TagSettings.stash_name s = Some name /\ name <> "")
    /\ TagSettings.merge_strategy s <> "".
Proof.
  intros Hsnap Hfive.
  destruct (resolve_returns st self t cfg global overrides Hsnap Hfive) as (s & Hrun & Hs).
  eexists _, _, s. split; [done|]. simpl. split; [apply lookup_snoc|].
  rewrite Hs. split; [|apply fallbacks_merge_strategy].
  intros Hne. rewrite fallbacks_stash_name.
  match goal with |- context [opt_truthy ?v] => destruct v as [name|] eqn:Hv end; simpl.
  - destruct (Text.truthy name) eqn:Hname.
    + exists name. split; [done|]. by apply truthy_true.
    + apply truthy_true in Hne. rewrite Hne. eexists. split; [done|].
      destruct (Text.strip t); done.
  - apply truthy_true in Hne. rewrite Hne. eexists. split; [done|].
    destruct (Text.strip t); done.
Qed.

(** C3, as the code has it: when the trimmed input is empty the
    effective name, the [tag_name] of the result, is the baseline's own
    [tag_name], and otherwise it is the trimmed input.  When
    [stash_name] is still falsy after the override step it is set to the
    trimmed input followed by the tag suffix if the trimmed input is
    non-empty, and to the empty string if the trimmed input is empty,
    whatever the effective name is; a truthy [stash_name] is kept. *)
Theorem resolve_effective_name_and_stash_name (st : State) (self : loc) (t : string)
    (cfg : TagConfiguration.t) (global : TagSettings.t)
    (overrides : gmap string TagSettingsOverride.t) :
  snapshot st self cfg global overrides ->
  five_positions global overrides ->
  exists st' effective s,
    resolve self t st = (st', Returned effective)
    /\ settings_objs st' !! effective = Some s
    /\ TagSettings.tag_name s
       = (if decide (Text.strip t = "") then TagSettings.tag_name global
          else Text.strip t)
    /\ let after_override :=
         match override_for overrides (Text.strip t) with
         | Some o =>
             match TagSettingsOverride.stash_name o with
             | Some v => if decide (v = "") then None else Some v
             | None => TagSettings.stash_name global
             end
         | None => TagSettings.stash_name global
         end in
       TagSettings.stash_name s
       = if opt_truthy after_override then after_override
         else Some (if decide (Text.strip t = "") then ""
                    else Text.strip t +:+ TagConfiguration._tag_suffix cfg).
Proof.
  intros Hsnap Hfive.
  destruct (resolve_returns st self t cfg global overrides Hsnap Hfive) as (s & Hrun & Hs).
  eexists _, _, s. split; [done|]. simpl. split; [apply lookup_snoc|].
  rewrite Hs, fallbacks_tag_name, fallbacks_stash_name.
  assert (Htruthy : Text.truthy (Text.strip t)
                    = if decide (Text.strip t = "") then false else true).
  { case_decide as Hd; [by rewrite Hd|by apply truthy_true]. }
  rewrite !Htruthy.
  assert (Hsn : forall v : string,
            (if Text.truthy v then Some v else None)
            = (if decide (v = "") then None else Some v)).
  { intros v. destruct v; by repeat case_decide. }
  assert (Hderived : forall sfx : string,
            (if (if decide (Text.strip t = "") then false else true)
             then Text.strip t +:+ sfx else Text.strip t)
            = (if decide (Text.strip t = "") then "" else Text.strip t +:+ sfx)).
  { intros sfx. by case_decide. }
  split.
  - destruct (override_for overrides (Text.strip t)).
    + rewrite override_effect_tag_name. simpl. by case_decide.
    + simpl. by case_decide.
  - destruct (override_for overrides (Text.strip t)) as [o|].
    + rewrite override_effect_stash_name. simpl.
      destruct (TagSettingsOverride.stash_name o) as [v|];
        by rewrite ?Hsn, Hderived.
    + simpl. by rewrite Hderived.
Qed.

(** C9: [resolve] is pure with respect to the snapshot.  A call returns
    a new object and leaves every object that existed before, the
    snapshot's configuration object (source path and tag suffix), its
    global settings and its overrides dict among them, exactly as it
    was; a second call with the same input returns another new object
    whose fields equal, one by one, those of the first. *)
Theorem resolve_pure (st : State) (self : loc) (t : string)
    (cfg : TagConfiguration.t) (global : TagSettings.t)
    (overrides : gmap string TagSettingsOverride.t) :
  snapshot st self cfg global overrides ->
  five_positions global overrides ->
  exists st1 st2 e1 e2 s,
    resolve self t st = (st1, Returned e1)
    /\ resolve self t st1 = (st2, Returned e2)
    /\ settings_objs st1 !! e1 = Some s
    /\ settings_objs st2 !! e2 = Some s
    /\ settings_objs st2 !! e1 = Some s
    /\ e1 <> e2
    /\ snapshot st1 self cfg global overrides
    /\ snapshot st2 self cfg global overrides
    /\ (forall l, l < length (settings_objs st) ->
          settings_objs st1 !! l = settings_objs st !! l
          /\ settings_objs st2 !! l = settings_objs st !! l)
    /\ dict_objs st1 = dict_objs st /\ dict_objs st2 = dict_objs st
    /\ config_objs st1 = config_objs st /\ config_objs st2 = config_objs st
    /\ world st1 = world st /\ world st2 = world st
    /\ _CONFIG_CACHE st1 = _CONFIG_CACHE st /\ _CONFIG_CACHE st2 = _CONFIG_CACHE st.
Proof.
  intros Hsnap Hfive.
  destruct (resolve_returns st self t cfg global overrides Hsnap Hfive) as (s & Hrun1 & Hs).
  set (st1 := with_settings (settings_objs st ++ [s]) st) in *.
  assert (Hsnap1 : snapshot st1 self cfg global overrides).
  { destruct Hsnap as (Hc & Hg & Hd). repeat split; [done| |done].
    simpl. by apply lookup_app_l_Some. }
  destruct (resolve_returns st1 self t cfg global overrides Hsnap1 Hfive) as (s' & Hrun2 & Hs').
  rewrite <- Hs in Hs'. subst s'.
  set (st2 := with_settings (settings_objs st1 ++ [s]) st1) in *.
  assert (Hsnap2 : snapshot st2 self cfg global overrides).
  { destruct Hsnap1 as (Hc & Hg & Hd). repeat split; [done| |done].
    simpl. by apply lookup_app_l_Some. }
  exists st1, st2, (length (settings_objs st)), (length (settings_objs st1)), s.
  split; [done|]. split; [done|].
  split; [apply lookup_snoc|]. split; [apply lookup_snoc|].
  split; [simpl; apply lookup_app_l_Some, lookup_snoc|].
  split; [simpl; rewrite length_app; simpl; lia|].
  split; [done|]. split; [done|].
  split; [|done].
  intros l Hl. simpl. split.
  - by rewrite lookup_app_l.
  - rewrite lookup_app_l by (rewrite length_app; lia). by rewrite lookup_app_l.
Qed.

End Resolution.

(** ** Loading *)

Section Loading.
Context `{PyFloat}.

Lemma read_rows_effect (rows : list (list raw_item)) (failure : option exc)
    (global_settings overrides : loc) :
  forall idx (st : State) s m,
    settings_objs st !! global_settings = Some s ->
    dict_objs st !! overrides = Some m ->
    read_rows idx rows failure global_settings overrides st
    = (with_dicts (<[overrides := (rows_effect idx rows failure s m).1.2]> (dict_objs st))
         (with_settings
            (<[global_settings := (rows_effect idx rows failure s m).1.1]> (settings_objs st))
            st),
       (rows_effect idx rows failure s m).2).
Proof.
  induction rows as [|raw_row rows IH]; intros idx st s m Hs Hm; simpl.
  - rewrite !list_insert_id by done. destruct st, failure; done.
  - destruct (_parse_row idx raw_row) as [[k|] [o|]].
    + erewrite bind_returned.
      2:{ unfold dict_setitem. rewrite Hm. done. }
      rewrite (IH _ _ s (<[k:=o]> m)); simpl; [|done|].
      * by rewrite list_insert_insert_eq.
      * apply list_lookup_insert_eq. by eapply lookup_lt_Some.
    + erewrite bind_returned; [|done]. by apply IH.
    + pose proof (_apply_override_effect global_settings o st s Hs) as Hrun.
      destruct (override_effect o s) as [s' [[]|e]]; simpl in Hrun.
      * erewrite bind_returned; [|done].
        rewrite (IH _ _ s' m); simpl;
          [|apply list_lookup_insert_eq; by eapply lookup_lt_Some|done].
        by rewrite list_insert_insert_eq.
      * erewrite bind_raised; [|done]. simpl.
        by rewrite (list_insert_id (dict_objs st)).
    + erewrite bind_returned; [|done]. by apply IH.
Qed.

Lemma with_world_same (st : State) : with_world (world st) st = st.
Proof. by destruct st. Qed.

Lemma can_examine_own (w : World) (name : string) :
  can_examine w (plugin_root w) name = true.
Proof.
  unfold can_examine. rewrite (bool_decide_eq_true_2 (plugin_root w = plugin_root w)) by done.
  by rewrite orb_true_r.
Qed.

Lemma can_examine_file (w : World) (root name : string) f :
  files w !! path_join root name = Some f -> can_examine w root name = true.
Proof.
  intros Hf. unfold can_examine.
  by rewrite (bool_decide_eq_true_2 (is_Some _)) by (by eexists).
Qed.

Lemma can_examine_provision (config_path template_path : string) (w : World) root name :
  can_examine w root name = true ->
  can_examine (provision config_path template_path w) root name = true.
Proof.
  assert (Hadd : forall f,
    can_examine w root name = true ->
    can_examine (with_files (<[config_path := f]> (files w)) w) root name = true).
  { intros f. unfold can_examine. simpl.
    rewrite !orb_true_iff, !bool_decide_eq_true.
    intros [[Hfile| ->]|Hdir]; [|by left; right|by right].
    left. left. destruct (decide (config_path = path_join root name)) as [->|Hne].
    - rewrite lookup_insert_eq. by eexists.
    - by rewrite lookup_insert_ne. }
  intros Hcan. unfold provision.
  destruct (files w !! config_path); [done|].
  destruct (files w !! template_path); [|done].
  destruct (copyfile_fails w); [destruct (partial_copy w)|]; by try apply Hadd.
Qed.

Lemma provision_run (config_root : string) (st : State) :
  let config_path := path_join config_root _CONFIG_FILENAME in
  let template_path := path_join (plugin_root (world st)) _TEMPLATE_FILENAME in
  when (negb (bool_decide (is_Some (files (world st) !! config_path))))
    (template_exists <- path_exists (plugin_root (world st)) _TEMPLATE_FILENAME ;;
     when template_exists
       (try_except (copyfile template_path config_path) (fun _ => ret tt))) st
  = (with_world (provision config_path template_path (world st)) st, Returned tt).
Proof.
  intros config_path template_path. unfold provision.
  destruct (files (world st) !! config_path) as [f|] eqn:Hconfig; simpl.
  { by rewrite with_world_same. }
  unfold bind at 1. unfold path_exists, bind, read_world.
  rewrite can_examine_own. unfold ret. fold template_path.
  destruct (files (world st) !! template_path) as [f|] eqn:Htemplate; simpl.
  - unfold try_except, copyfile, bind, read_world, write_world, raise, ret; simpl.
    rewrite Htemplate.
    destruct (copyfile_fails (world st)); simpl; [|done].
    destruct (partial_copy (world st)); simpl; [done|].
    by rewrite with_world_same.
  - by rewrite with_world_same.
Qed.

Lemma read_step (config_path : string) (global_settings overrides : loc)
    (st : State) s m :
  settings_objs st !! global_settings = Some s ->
  dict_objs st !! overrides = Some m ->
  when (bool_decide (is_Some (files (world st) !! config_path)))
    (try_except (read_config_file config_path global_settings overrides)
                (fun _ => ret tt)) st
  = let values := match files (world st) !! config_path with
                  | Some f => (rows_effect 2 (data_rows f) (failure f) s m).1
                  | None => (s, m)
                  end in
    (with_dicts (<[overrides := values.2]> (dict_objs st))
       (with_settings (<[global_settings := values.1]> (settings_objs st)) st),
     Returned tt).
Proof.
  intros Hs Hm.
  destruct (files (world st) !! config_path) as [f|] eqn:Hconfig; simpl.
  - unfold try_except, read_config_file, bind, read_world. simpl. rewrite Hconfig.
    rewrite (read_rows_effect _ _ _ _ _ _ s m Hs Hm).
    by destruct (rows_effect _ _ _ _ _) as [[s' m'] [[]|e]].
  - rewrite !list_insert_id by done. by destruct st.
Qed.

Lemma load_run (base_path : option string) (st : State) :
  let w := world st in
  let config_root := default (plugin_root w) base_path in
  let config_path := path_join config_root _CONFIG_FILENAME in
  let template_path := path_join (plugin_root w) _TEMPLATE_FILENAME in
  let w' := provision config_path template_path w in
  let values := loaded (files w' !! config_path) in
  can_examine w config_root _CONFIG_FILENAME = true ->
  load base_path st
  = (mkState _ (settings_objs st ++ [values.1]) (dict_objs st ++ [values.2])
       (config_objs st ++
          [TagConfiguration.mk config_path (length (settings_objs st))
             (length (dict_objs st)) (_get_tag_suffix w)])
       w' (_CONFIG_CACHE st),
     Returned (length (config_objs st))).
Proof.
  intros w config_root config_path template_path w' values Hcan.
  destruct st as [l D C w0 c]. simpl in w. subst w.
  unfold load.
  erewrite bind_returned; [|reflexivity]. simpl.
  fold config_root. fold config_path. fold template_path.
  erewrite bind_returned; [|reflexivity].
  erewrite bind_returned; [|reflexivity].
  erewrite bind_returned;
    [|unfold path_exists, bind, read_world; simpl; rewrite Hcan; reflexivity].
  fold config_path.
  erewrite bind_returned.
  2:{ match goal with
      | |- _ ?st = _ => exact (provision_run config_root st)
      end. }
  simpl. fold config_path. fold template_path. fold w'.
  erewrite bind_returned;
    [|unfold path_exists, bind, read_world; simpl;
      pose proof (can_examine_provision config_path template_path w0 _ _ Hcan) as Hcan';
      fold w' in Hcan'; rewrite Hcan'; reflexivity].
  fold config_path.
  erewrite bind_returned.
  2:{ match goal with
      | |- _ ?st = _ =>
          apply (read_step config_path (length l) (length D) st builtin_defaults ∅);
            simpl; apply lookup_snoc
      end. }
  simpl. fold values.
  unfold new_config. simpl.
  rewrite !insert_app_r_alt, !Nat.sub_diag by done. done.
Qed.

(** [load] on a configuration path that cannot be examined: the first
    [exists()] raises, after the two objects were made. *)
Lemma load_raises (base_path : option string) (st : State) :
  can_examine (world st) (default (plugin_root (world st)) base_path) _CONFIG_FILENAME
  = false ->
  load base_path st
  = (mkState _ (settings_objs st ++ [builtin_defaults]) (dict_objs st ++ [∅])
       (config_objs st) (world st) (_CONFIG_CACHE st),
     Raised OSError).
Proof.
  intros Hcan. destruct st as [l D C w0 c]. simpl in Hcan.
  unfold load.
  erewrite bind_returned; [|reflexivity]. simpl.
  erewrite bind_returned; [|reflexivity].
  erewrite bind_returned; [|reflexivity].
  erewrite bind_raised;
    [reflexivity|unfold path_exists, bind, read_world; simpl; rewrite Hcan; reflexivity].
Qed.
End Loading.

Section LoadedValues.
Context `{PyFloat}.

Lemma normalize_string_truthy (value : option string) :
  _normalize_string value <> Some "".
Proof.
  destruct value as [v|]; simpl; [|done].
  by destruct (Text.strip v).
Qed.

Lemma parse_row_parsed idx raw_row k o :
  _parse_row idx raw_row = (k, Some o) -> parsed o.
Proof.
  unfold _parse_row. destruct (negb _); [done|].
  destruct (Text.mem _ _); intros [= _ <-]; split; simpl;
    solve [done | apply normalize_string_truthy].
Qed.

Lemma default_rows_parsed idx rows :
  Forall parsed (default_rows (fragments idx rows)).
Proof.
  revert idx. induction rows as [|raw_row rows IH]; intros idx; simpl; [constructor|].
  unfold default_rows. simpl. fold (default_rows (fragments (S idx) rows)).
  destruct (_parse_row idx raw_row) as [[k|] [o|]] eqn:Hrow; simpl; try apply IH.
  constructor; [by eapply parse_row_parsed|apply IH].
Qed.

Lemma apply_value_five s o :
  length (TagSettingsOverride.merge_params o) = 5 ->
  length (TagSettings.merge_params s) = 5 ->
  override_effect o s = (apply_value s o, Returned tt)
  /\ length (TagSettings.merge_params (apply_value s o)) = 5.
Proof.
  intros Ho Hs. unfold apply_value.
  destruct (override_effect_returns o s) as (merged & -> & Hl & _); [lia|].
  split; [done|]. simpl. lia.
Qed.

(** With five-position tuples the loop never raises on its own: it
    reads every row the reader yields, and ends as the reader ends. *)
Lemma rows_effect_fold (rows : list (list raw_item)) (failure : option exc) :
  forall idx s m,
    length (TagSettings.merge_params s) = 5 ->
    rows_effect idx rows failure s m
    = (foldl apply_value s (default_rows (fragments idx rows)),
       foldl store_fragment m (fragments idx rows),
       reader_end failure).
Proof.
  induction rows as [|raw_row rows IH]; intros idx s m Hs; simpl; [done|].
  unfold default_rows. simpl. fold (default_rows (fragments (S idx) rows)).
  destruct (_parse_row idx raw_row) as [[k|] [o|]] eqn:Hrow; simpl; try by apply IH.
  destruct (apply_value_five s o) as [-> Hfive]; [by eapply parse_row_parsed|done|].
  by apply IH.
Qed.

Lemma stored_lookup (frs : list (option string * option TagSettingsOverride.t)) :
  forall (m : gmap string TagSettingsOverride.t) k,
    foldl store_fragment m frs !! k
    = match last (rows_for k frs) with
      | Some o => Some o
      | None => m !! k
      end.
Proof.
  induction frs as [|[[k'|] [o|]] frs IH]; intros m k; simpl; try done;
    rewrite IH; unfold rows_for; simpl; fold (rows_for k frs); try done.
  case_decide as Hk.
  - subst k'. rewrite last_cons. destruct (last (rows_for k frs)); [done|].
    by rewrite lookup_insert_eq.
  - destruct (last (rows_for k frs)); [done|]. by rewrite lookup_insert_ne.
Qed.

Lemma fold_field {A B} (get : TagSettings.t -> A)
    (opinion : TagSettingsOverride.t -> option B) (upd : B -> A) :
  (forall o s, parsed o -> length (TagSettings.merge_params s) = 5 ->
     get (apply_value s o)
     = match opinion o with Some b => upd b | None => get s end) ->
  forall os s,
    Forall parsed os -> length (TagSettings.merge_params s) = 5 ->
    get (foldl apply_value s os)
    = match last_some (opinion <$> os) with Some b => upd b | None => get s end.
Proof.
  intros Hstep. induction os as [|o os IH]; intros s Hos Hs; [done|].
  inversion Hos as [|? ? Ho Hos']; subst.
  rewrite fmap_cons. cbn [foldl last_some].
  rewrite IH; [|done|by apply apply_value_five; [apply Ho|]].
  destruct (last_some (opinion <$> os)); [done|]. by apply Hstep.
Qed.


Lemma apply_value_shape s o :
  length (TagSettingsOverride.merge_params o) = 5 ->
  length (TagSettings.merge_params s) = 5 ->
  exists merged,
    apply_value s o = TagSettings.set_merge_params merged (assign_scalars o s)
    /\ forall i,
         merged !! i =
           match TagSettingsOverride.merge_params o !! i with
           | Some (Some v) => Some (Some v)
           | _ => TagSettings.merge_params s !! i
           end.
Proof.
  intros Ho Hs. unfold apply_value.
  destruct (override_effect_returns o s) as (merged & -> & _ & Hpos); [lia|].
  by exists merged.
Qed.

(** The reader's way of ending leaves no trace in what [load] builds:
    the rows read before an exception stay applied. *)
Lemma loaded_whatever_the_end (rows : list (list raw_item)) (failure : option exc) :
  loaded (Some {| data_rows := rows; failure := failure |})
  = loaded (Some {| data_rows := rows; failure := None |}).
Proof. unfold loaded. simpl. by rewrite !rows_effect_fold. Qed.

Local Ltac fields := try done; try (by destruct (last_some _)).

(** C7: during [load], the override stored for a tag key is the parse of
    the last row with that key alone (rows spelled with different case
    share the lower-cased key), with no merging across those rows; the
    default rows fold one after the other onto the global baseline, the
    last row with an opinion on a field giving that field its value,
    and the built-in default staying where no default row has one. *)
Theorem load_last_tag_row_wins_default_rows_fold (base_path : option string)
    (st : State) (f : csv_file) :
  files (world st)
    !! path_join (default (plugin_root (world st)) base_path) _CONFIG_FILENAME
  = Some f ->
  exists st' c cfg global overrides,
    load base_path st = (st', Returned c)
    /\ snapshot st' c cfg global overrides
    /\ (forall k, overrides !! k = last (rows_for k (fragments 2 (data_rows f))))
    /\ let defaults := default_rows (fragments 2 (data_rows f)) in
       TagSettings.tag_name global = "__global__"
       /\ TagSettings.stash_name global
          = last_some (TagSettingsOverride.stash_name <$> defaults)
       /\ TagSettings.markers_enabled global
          = default true (last_some (TagSettingsOverride.markers_enabled <$> defaults))
       /\ TagSettings.scene_tag_enabled global
          = default true (last_some (TagSettingsOverride.scene_tag_enabled <$> defaults))
       /\ TagSettings.image_enabled global
          = default false (last_some (TagSettingsOverride.image_enabled <$> defaults))
       /\ TagSettings.required_scene_tag_duration global
          = last_some (TagSettingsOverride.required_scene_tag_duration <$> defaults)
       /\ TagSettings.min_marker_duration global
          = last_some (TagSettingsOverride.min_marker_duration <$> defaults)
       /\ TagSettings.max_gap global
          = last_some (TagSettingsOverride.max_gap <$> defaults)
       /\ TagSettings.merge_strategy global
          = default "default" (last_some (TagSettingsOverride.merge_strategy <$> defaults))
       /\ forall i, i < 5 ->
            TagSettings.merge_params global !! i
            = Some (last_some
                      ((fun o => default None (TagSettingsOverride.merge_params o !! i))
                         <$> defaults)).
Proof.
  intros Hfile. rewrite load_run by (by eapply can_examine_file). cbv zeta.
  unfold provision. rewrite !Hfile. unfold loaded.
  rewrite rows_effect_fold by done. simpl.
  set (frs := fragments 2 (data_rows f)).
  eexists _, _, _, _, _. split; [done|].
  split; [repeat split; simpl; apply lookup_snoc|].
  split.
  { intros k. rewrite stored_lookup. by destruct (last (rows_for k frs)). }
  pose proof (default_rows_parsed 2 (data_rows f)) as Hparsed. fold frs in Hparsed.
  assert (Hbase : length (TagSettings.merge_params builtin_defaults) = 5) by done.
  assert (Hfield : forall (A B : Type) (get : TagSettings.t -> A)
            (opinion : TagSettingsOverride.t -> option B) (upd : B -> A),
            (forall o s, parsed o ->
               get (assign_scalars o s)
               = match opinion o with Some b => upd b | None => get s end) ->
            (forall merged s, get (TagSettings.set_merge_params merged s) = get s) ->
            get (foldl apply_value builtin_defaults (default_rows frs))
            = match last_some (opinion <$> default_rows frs) with
              | Some b => upd b
              | None => get builtin_defaults
              end).
  { intros A B get opinion upd Hassign Hkeep.
    apply fold_field; [|done..].
    intros o s Ho Hs. destruct (apply_value_shape s o) as (merged & -> & _);
      [apply Ho|done|].
    rewrite Hkeep. by apply Hassign. }
  repeat split.
  - rewrite (Hfield _ _ TagSettings.tag_name (fun _ => @None unit)
               (fun _ => "__global__")); fields.
  - rewrite (Hfield _ _ TagSettings.stash_name TagSettingsOverride.stash_name Some);
      fields.
    intros o s [_ Ho]. simpl.
    destruct (TagSettingsOverride.stash_name o) as [[|? ?]|]; done.
  - rewrite (Hfield _ _ TagSettings.markers_enabled
               TagSettingsOverride.markers_enabled id); fields.
  - rewrite (Hfield _ _ TagSettings.scene_tag_enabled
               TagSettingsOverride.scene_tag_enabled id); fields.
  - rewrite (Hfield _ _ TagSettings.image_enabled
               TagSettingsOverride.image_enabled id); fields.
  - rewrite (Hfield _ _ TagSettings.required_scene_tag_duration
               TagSettingsOverride.required_scene_tag_duration Some); fields.
  - rewrite (Hfield _ _ TagSettings.min_marker_duration
               TagSettingsOverride.min_marker_duration Some); fields.
  - rewrite (Hfield _ _ TagSettings.max_gap TagSettingsOverride.max_gap Some); fields.
  - rewrite (Hfield _ _ TagSettings.merge_strategy
               TagSettingsOverride.merge_strategy id); fields.
  - intros i Hi.
    rewrite (fold_field (fun s => TagSettings.merge_params s !! i)
               (fun o => default None (TagSettingsOverride.merge_params o !! i))
               (fun v => Some (Some v))); [| |done..].
    + destruct (last_some _); [done|].
      simpl. by do 5 (destruct i as [|i]; [done|]); lia.
    + intros o s Ho Hs. destruct (apply_value_shape s o) as (merged & -> & Hpos);
        [apply Ho|done|].
      simpl. rewrite Hpos.
      by destruct (TagSettingsOverride.merge_params o !! i) as [[?|]|].
Qed.

End LoadedValues.

(** ** The cached store *)

Section CachedStore.
Context `{PyFloat}.

Lemma extends_refl (st : State) : extends st st.
Proof. by repeat split. Qed.

Lemma extends_trans (st1 st2 st3 : State) :
  extends st1 st2 -> extends st2 st3 -> extends st1 st3.
Proof.
  intros (? & ? & ?) (? & ? & ?). repeat split; by etrans.
Qed.

Lemma extends_snapshot st st' self cfg global overrides :
  extends st st' ->
  snapshot st self cfg global overrides -> snapshot st' self cfg global overrides.
Proof.
  intros (Hs & Hd & Hc) (? & ? & ?). repeat split; by eapply prefix_lookup_Some.
Qed.

Lemma load_extends base_path (st : State) :
  extends st (load base_path st).1
  /\ _CONFIG_CACHE (load base_path st).1 = _CONFIG_CACHE st.
Proof.
  destruct (can_examine (world st) (default (plugin_root (world st)) base_path)
              _CONFIG_FILENAME) eqn:Hcan.
  - rewrite load_run by done. simpl. repeat split; by apply prefix_app_r.
  - rewrite load_raises by done. simpl.
    repeat split; simpl; [by apply prefix_app_r|by apply prefix_app_r|done].
Qed.

Lemma resolve_extends self tag_name (st : State) :
  extends st (resolve self tag_name st).1
  /\ _CONFIG_CACHE (resolve self tag_name st).1 = _CONFIG_CACHE st.
Proof.
  unfold resolve.
  destruct (config_objs st !! self) as [cfg|] eqn:Hcfg.
  2:{ erewrite bind_raised; [|unfold read_config; by rewrite Hcfg].
      split; [apply extends_refl|done]. }
  erewrite bind_returned; [|unfold read_config; by rewrite Hcfg].
  destruct (settings_objs st !! TagConfiguration._global_settings cfg) as [global|] eqn:Hg.
  2:{ erewrite bind_raised; [|unfold getattr; by rewrite Hg].
      split; [apply extends_refl|done]. }
  erewrite bind_returned; [|unfold getattr; by rewrite Hg].
  erewrite bind_returned;
    [|unfold replace; erewrite bind_returned;
      [reflexivity|unfold getattr; by rewrite Hg]].
  simpl.
  set (normalized := Text.strip tag_name).
  set (clone := TagSettings.set_tag_name _ global).
  assert (Hclone : extends st (with_settings (settings_objs st ++ [clone]) st)).
  { repeat split; simpl; [by apply prefix_app_r|done..]. }
  assert (Htail : forall override,
    let r := (if_not_none override (fun override =>
                 _apply_override (length (settings_objs st)) override) ;;;
              stash_name <- getattr (length (settings_objs st)) TagSettings.stash_name ;;
              when (negb (opt_truthy stash_name))
                (setattr (length (settings_objs st))
                   (TagSettings.set_stash_name
                      (Some (if Text.truthy normalized
                             then normalized +:+ TagConfiguration._tag_suffix cfg
                             else normalized)))) ;;;
              merge_strategy <- getattr (length (settings_objs st)) TagSettings.merge_strategy ;;
              when (negb (Text.truthy merge_strategy))
                (setattr (length (settings_objs st))
                   (TagSettings.set_merge_strategy "default")) ;;;
              ret (length (settings_objs st)))
               (with_settings (settings_objs st ++ [clone]) st) in
    extends st r.1 /\ _CONFIG_CACHE r.1 = _CONFIG_CACHE st).
  { intros override. cbv zeta.
    rewrite (resolve_tail_effect _ override normalized _ _ clone); [|apply lookup_snoc].
    simpl. rewrite insert_snoc.
    repeat split; simpl; [by apply prefix_app_r|done..]. }
  destruct (Text.truthy normalized) eqn:Hn.
  - destruct (dict_objs st !! TagConfiguration._overrides cfg) as [m|] eqn:Hd.
    + erewrite bind_returned; [|unfold dict_get; simpl; by rewrite Hd]. apply Htail.
    + erewrite bind_raised; [|unfold dict_get; simpl; by rewrite Hd]. by split.
  - erewrite bind_returned; [|reflexivity]. apply Htail.
Qed.

Lemma plain_get_cached (st : State) c :
  _CONFIG_CACHE st = Some c ->
  get_tag_configuration false st = (st, Returned (Some c)).
Proof.
  intros Hc. unfold get_tag_configuration.
  unfold bind, read_cache, when, ret. rewrite Hc. simpl. by rewrite Hc.
Qed.

Lemma exec_keeps_cached (st : State) (o : op) c cfg global overrides :
  _CONFIG_CACHE st = Some c ->
  snapshot st c cfg global overrides ->
  _CONFIG_CACHE (exec st o) = Some c /\ snapshot (exec st o) c cfg global overrides.
Proof.
  intros Hc Hsnap. destruct o as [|base_path|self tag_name|w]; unfold exec.
  - by rewrite (plain_get_cached st c Hc).
  - destruct (load_extends base_path st) as [Hext Hcache].
    split; [congruence|by eapply extends_snapshot].
  - destruct (resolve_extends self tag_name st) as [Hext Hcache].
    split; [congruence|by eapply extends_snapshot].
  - done.
Qed.

Lemma run_keeps_cached (ops : list op) :
  forall (st : State) c cfg global overrides,
    _CONFIG_CACHE st = Some c ->
    snapshot st c cfg global overrides ->
    _CONFIG_CACHE (run ops st) = Some c /\ snapshot (run ops st) c cfg global overrides.
Proof.
  induction ops as [|o ops IH]; intros st c cfg global overrides Hc Hsnap; [done|].
  destruct (exec_keeps_cached st o c cfg global overrides Hc Hsnap) as [Hc' Hsnap'].
  by apply IH.
Qed.

(** C10: the store as a sequential state machine.  A call
    [get_tag_configuration(reload=True)] returns the snapshot that
    [load] builds in that call, a new object, and leaves the cache
    pointing at it; after any sequence of plain calls, direct loads,
    resolutions and changes of the outside world, a call without reload
    still returns that same object, with the contents it was loaded
    with. *)
Theorem reload_then_plain_gets (st : State) :
  exists st1 c cfg global overrides,
    get_tag_configuration true st = (st1, Returned (Some c))
    /\ load None st = (with_cache (_CONFIG_CACHE st) st1, Returned c)
    /\ c = length (config_objs st)
    /\ _CONFIG_CACHE st1 = Some c
    /\ snapshot st1 c cfg global overrides
    /\ forall ops : list op,
         get_tag_configuration false (run ops st1) = (run ops st1, Returned (Some c))
         /\ _CONFIG_CACHE (run ops st1) = Some c
         /\ snapshot (run ops st1) c cfg global overrides.
Proof.
  unfold get_tag_configuration. rewrite load_run by apply can_examine_own.
  unfold bind. rewrite load_run by apply can_examine_own. simpl.
  eexists _, _, _, _, _. split; [done|]. simpl. split; [done|]. split; [done|].
  split; [done|].
  match goal with
  | |- snapshot ?st1 ?c ?cfg ?g ?m /\ _ => assert (Hsnap : snapshot st1 c cfg g m)
  end.
  { repeat split; simpl; apply lookup_snoc. }
  split; [done|]. intros ops.
  pose proof (fun Hcache => run_keeps_cached ops _ _ _ _ _ Hcache Hsnap) as Hkeep.
  destruct Hkeep as [Hc Hs]; [done|].
  split; [by apply plain_get_cached|done].
Qed.

End CachedStore.

(** ** The properties on the sample rows, files and states *)

Section OnSamples.
#[local] Existing Instance integer_floats.

Lemma cats_snapshot : snapshot cats_state 0 cats_config cats_global cats_overrides.
Proof. repeat split; vm_compute; reflexivity. Qed.

Lemma cats_five_positions : five_positions cats_global cats_overrides.
Proof.
  split; [reflexivity|].
  apply map_Forall_insert_2; [reflexivity|apply map_Forall_empty].
Qed.

(** C1: a reader that raises after two rows.  [load] returns a snapshot
    that keeps what the two rows did: the default row's
    [markers_enabled] in the global settings and the override of the tag
    row in the dict, where the built-in defaults and an empty dict were
    due. *)
Theorem load_keeps_rows_read_before_failure :
  let r := load None (fresh (world_with truncated_file)) in
  r.2 = Returned 0
  /\ snapshot r.1 0 cats_config cats_global (<["cat" := override_Cat]> ∅)
  /\ cats_global <> builtin_defaults
  /\ (<["cat" := override_Cat]> ∅ : gmap string TagSettingsOverride.t) <> ∅.
Proof.
  cbv zeta. split; [vm_compute; reflexivity|].
  split; [repeat split; vm_compute; reflexivity|].
  split; [discriminate|].
  intros Hempty. apply (f_equal (fun m => m !! "cat")) in Hempty.
  by rewrite lookup_insert_eq, lookup_empty in Hempty.
Qed.


(** C2, as stated, fails: for the input [" "], itself not empty, on a
    loaded snapshot the result has the non-empty [tag_name] of the
    baseline and an empty [stash_name]. *)
Lemma resolve_blank_input_counterexample :
  let r := resolve 0 " " cats_state in
  r.2 = Returned 1
  /\ exists s,
       settings_objs r.1 !! 1 = Some s
       /\ TagSettings.tag_name s <> ""
       /\ " " <> ""
       /\ ~ (exists name, TagSettings.stash_name s = Some name /\ name <> "").
Proof.
  cbv zeta. split; [vm_compute; reflexivity|].
  exists (TagSettings.set_stash_name (Some "") cats_global).
  split; [vm_compute; reflexivity|].
  split; [discriminate|]. split; [discriminate|].
  intros (name & [= <-] & Hname). by apply Hname.
Qed.

(** C3, as stated, fails: for the empty input the effective name is the
    baseline's [tag_name], which is not empty, and [stash_name], falsy
    after the override step, is set to the empty string and not to the
    effective name followed by the suffix. *)
Lemma resolve_empty_input_counterexample :
  let r := resolve 0 "" cats_state in
  r.2 = Returned 1
  /\ exists s,
       settings_objs r.1 !! 1 = Some s
       /\ TagSettings.tag_name s = TagSettings.tag_name cats_global
       /\ TagSettings.tag_name s <> ""
       /\ TagSettings.stash_name cats_global = None
       /\ TagSettings.stash_name s = Some ""
       /\ TagSettings.stash_name s
          <> Some (TagSettings.tag_name s +:+ TagConfiguration._tag_suffix cats_config).
Proof.
  cbv zeta. split; [vm_compute; reflexivity|].
  exists (TagSettings.set_stash_name (Some "") cats_global).
  split; [vm_compute; reflexivity|]. by repeat split.
Qed.

Lemma resolve_names_nonempty_witness :
  snapshot cats_state 0 cats_config cats_global cats_overrides
  /\ five_positions cats_global cats_overrides
  /\ exists st' effective s,
       resolve 0 " Cat " cats_state = (st', Returned effective)
       /\ settings_objs st' !! effective = Some s
       /\ (Text.strip " Cat " <> "" ->
           exists name, TagSettings.stash_name s = Some name /\ name <> "")
       /\ TagSettings.merge_strategy s <> "".
Proof.
  split; [repeat split; vm_compute; reflexivity|].
  split; [exact cats_five_positions|].
  apply (resolve_names_nonempty cats_state 0 " Cat " cats_config cats_global cats_overrides).
  - repeat split; vm_compute; reflexivity.
  - exact cats_five_positions.
Defined.

Lemma resolve_effective_name_and_stash_name_witness :
  snapshot cats_state 0 cats_config cats_global cats_overrides
  /\ five_positions cats_global cats_overrides
  /\ exists st' effective s,
       resolve 0 " Cat " cats_state = (st', Returned effective)
       /\ settings_objs st' !! effective = Some s
       /\ TagSettings.tag_name s = "Cat"
       /\ TagSettings.stash_name s = Some "Cat_AI".
Proof.
  split; [repeat split; vm_compute; reflexivity|].
  split; [exact cats_five_positions|].
  destruct (resolve_effective_name_and_stash_name cats_state 0 " Cat " cats_config
              cats_global cats_overrides)
    as (st' & effective & s & Hrun & Hs & Hname & Hstash).
  - repeat split; vm_compute; reflexivity.
  - exact cats_five_positions.
  - exists st', effective, s. split; [exact Hrun|]. split; [exact Hs|].
    split; [exact Hname|exact Hstash].
Defined.

Lemma apply_override_scalar_fields_witness :
  settings_objs sample_state !! 0 = Some sample_base
  /\ exists s',
       settings_objs (_apply_override 0 sample_override sample_state).1 !! 0 = Some s'
       /\ TagSettings.stash_name s' = None
       /\ TagSettings.markers_enabled s' = false
       /\ TagSettings.scene_tag_enabled s' = true
       /\ TagSettings.min_marker_duration s' = Some 2%Z
       /\ TagSettings.max_gap s' = Some 0%Z.
Proof.
  split; [reflexivity|].
  destruct (apply_override_scalar_fields sample_state 0 sample_override sample_base eq_refl)
    as (s' & Hs & _ & Hstash & Hmarkers & Hscene & _ & _ & Hmin & Hgap & _).
  exists s'. repeat split; assumption.
Defined.

Lemma apply_override_merge_params_positions_witness :
  settings_objs sample_state !! 0 = Some sample_base
  /\ length (TagSettingsOverride.merge_params sample_override) = 5
  /\ length (TagSettings.merge_params sample_base) = 5
  /\ exists st' s',
       _apply_override 0 sample_override sample_state = (st', Returned tt)
       /\ settings_objs st' !! 0 = Some s'
       /\ forall i, i < 5 ->
            TagSettings.merge_params s' !! i
            = [Some 1%Z; None; Some 4%Z; None; Some 9%Z] !! i.
Proof.
  split; [reflexivity|]. split; [reflexivity|]. split; [reflexivity|].
  destruct (apply_override_merge_params_positions sample_state 0 sample_override
              sample_base eq_refl eq_refl eq_refl)
    as (st' & s' & Hrun & Hs & _ & Hpos).
  exists st', s'. split; [exact Hrun|]. split; [exact Hs|].
  intros i Hi. rewrite (Hpos i Hi).
  do 5 (destruct i as [|i]; [reflexivity|]). lia.
Defined.

Lemma parse_row_tag_key_witness :
  any_value (normalize_row row_Default) = true
  /\ (tag_cell row_Default ∉ default_markers)
  /\ (exists override, _parse_row 2 row_Default = (Some "default", Some override))
  /\ any_value (normalize_row row_star) = true
  /\ (tag_cell row_star ∈ default_markers)
  /\ (exists override, _parse_row 3 row_star = (None, Some override)).
Proof.
  assert (Hnot : tag_cell row_Default ∉ default_markers).
  { vm_compute. intros Hin.
    repeat (apply elem_of_cons in Hin as [Hin|Hin]; [discriminate|]).
    by apply elem_of_nil in Hin. }
  assert (Hstar : tag_cell row_star ∈ default_markers).
  { vm_compute. apply list_elem_of_further, list_elem_of_here. }
  split; [vm_compute; reflexivity|]. split; [exact Hnot|].
  split.
  { destruct (parse_row_tag_key 2 row_Default ltac:(vm_compute; reflexivity))
      as (_ & _ & Hkey).
    exact (Hkey Hnot). }
  split; [vm_compute; reflexivity|]. split; [exact Hstar|].
  destruct (parse_row_tag_key 3 row_star ltac:(vm_compute; reflexivity))
    as (_ & Hbase & _).
  exact (Hbase Hstar).
Defined.

Lemma load_last_tag_row_wins_default_rows_fold_witness :
  files (world (fresh (world_with cats_file)))
    !! path_join (default (plugin_root (world (fresh (world_with cats_file)))) None)
         _CONFIG_FILENAME
  = Some cats_file
  /\ exists st' c cfg global overrides,
       load None (fresh (world_with cats_file)) = (st', Returned c)
       /\ snapshot st' c cfg global overrides
       /\ overrides !! "cat" = Some override_CAT
       /\ TagSettings.markers_enabled global = false
       /\ TagSettings.stash_name global = None.
Proof.
  assert (Hfile : files (world (fresh (world_with cats_file)))
                    !! path_join (default (plugin_root (world (fresh (world_with cats_file)))) None)
                         _CONFIG_FILENAME
                  = Some cats_file) by (vm_compute; reflexivity).
  split; [exact Hfile|].
  destruct (load_last_tag_row_wins_default_rows_fold None (fresh (world_with cats_file))
              cats_file Hfile)
    as (st' & c & cfg & global & overrides & Hrun & Hsnap & Hkeys & _ & Hstash & Hmarkers & _).
  exists st', c, cfg, global, overrides.
  split; [exact Hrun|]. split; [exact Hsnap|].
  split; [rewrite Hkeys; vm_compute; reflexivity|].
  split; [rewrite Hmarkers; vm_compute; reflexivity|].
  rewrite Hstash. vm_compute. reflexivity.
Defined.

Lemma blank_row_skipped_witness :
  (forall key value, Field key (Some value) ∈ row_blank -> Text.blank value = true)
  /\ _parse_row 3 row_blank = (None, None)
  /\ read_rows 3 [row_blank; row_Cat] None 0 0 cats_state
     = read_rows 4 [row_Cat] None 0 0 cats_state.
Proof.
  assert (Hblank : forall key value,
            Field key (Some value) ∈ row_blank -> Text.blank value = true).
  { intros key value Hin.
    repeat (apply elem_of_cons in Hin as [Hin|Hin];
            [first [discriminate Hin | injection Hin as _ ->; reflexivity]|]).
    by apply elem_of_nil in Hin. }
  split; [exact Hblank|].
  destruct (blank_row_skipped 3 row_blank [row_Cat] None 0 0 cats_state Hblank)
    as (Hrow & _ & Hnext).
  split; [exact Hrow|exact Hnext].
Defined.

Lemma resolve_pure_witness :
  snapshot cats_state 0 cats_config cats_global cats_overrides
  /\ five_positions cats_global cats_overrides
  /\ exists st1 st2 e1 e2 s,
       resolve 0 "Cat" cats_state = (st1, Returned e1)
       /\ resolve 0 "Cat" st1 = (st2, Returned e2)
       /\ settings_objs st1 !! e1 = Some s
       /\ settings_objs st2 !! e2 = Some s
       /\ e1 <> e2
       /\ snapshot st2 0 cats_config cats_global cats_overrides.
Proof.
  split; [repeat split; vm_compute; reflexivity|].
  split; [exact cats_five_positions|].
  destruct (resolve_pure cats_state 0 "Cat" cats_config cats_global cats_overrides)
    as (st1 & st2 & e1 & e2 & s & Hrun1 & Hrun2 & Hs1 & Hs2 & _ & Hne & _ & Hsnap & _).
  - repeat split; vm_compute; reflexivity.
  - exact cats_five_positions.
  - exists st1, st2, e1, e2, s. repeat split; try assumption; apply Hsnap.
Defined.

End OnSamples.

(** ** More on the override merge *)

Section MergeAgain.
Context `{PyFloat}.

Lemma merge_positions_no_values (values : list (option float)) :
  Forall (fun v => v = None) values ->
  forall idx merged, merge_positions idx values merged = Returned merged.
Proof.
  induction 1 as [|v values -> _ IH]; intros idx merged; simpl; [done|apply IH].
Qed.

Lemma override_effect_no_opinion (o : TagSettingsOverride.t) (s : TagSettings.t) :
  no_opinion o -> override_effect o s = (s, Returned tt).
Proof.
  intros (Hsn & Hme & Hse & Hie & Hr & Hmm & Hmg & Hms & Hmp).
  unfold override_effect, assign_scalars.
  rewrite Hsn, Hme, Hse, Hie, Hr, Hmm, Hmg, Hms, (merge_positions_no_values _ Hmp).
  destruct s. simpl. by destruct (seq_truthy _).
Qed.

(** X1: an override without opinions changes nothing: [_apply_override]
    returns and the store is as it was, whatever the base holds and
    however many positions its [merge_params] has. *)
Theorem apply_override_no_opinion (st : State) (base : loc)
    (override : TagSettingsOverride.t) (s : TagSettings.t) :
  settings_objs st !! base = Some s ->
  no_opinion override ->
  _apply_override base override st = (st, Returned tt).
Proof.
  intros Hs Hno. rewrite (_apply_override_effect base override st s Hs).
  rewrite (override_effect_no_opinion _ _ Hno). simpl.
  by rewrite list_insert_id, with_settings_same.
Qed.

Lemma merge_positions_frame (values : list (option float)) :
  forall idx merged merged',
    merge_positions idx values merged = Returned merged' ->
    length merged' = length merged
    /\ forall i, i < idx -> merged' !! i = merged !! i.
Proof.
  induction values as [|[v|] values IH]; intros idx merged merged'; simpl.
  - by intros [= <-].
  - case_decide; [|done]. intros Hrun.
    destruct (IH _ _ _ Hrun) as [Hlen Hpos]. rewrite length_insert in Hlen.
    split; [done|]. intros i Hi. rewrite Hpos by lia.
    by rewrite list_lookup_insert_ne by lia.
  - intros Hrun. destruct (IH _ _ _ Hrun) as [Hlen Hpos].
    split; [done|]. intros i Hi. apply Hpos. lia.
Qed.

Lemma merge_positions_again (values : list (option float)) :
  forall idx merged merged',
    merge_positions idx values merged = Returned merged' ->
    merge_positions idx values merged' = Returned merged'.
Proof.
  induction values as [|[v|] values IH]; intros idx merged merged'; simpl.
  - done.
  - case_decide as Hidx; [|done]. intros Hrun.
    destruct (merge_positions_frame _ _ _ _ Hrun) as [Hlen Hpos].
    rewrite length_insert in Hlen.
    case_decide; [|lia].
    assert (Hat : merged' !! idx = Some (Some v)).
    { rewrite Hpos by lia. by apply list_lookup_insert_eq. }
    rewrite (list_insert_id _ _ _ Hat). by eapply IH.
  - apply IH.
Qed.

Lemma assign_scalars_again (o : TagSettingsOverride.t) (s : TagSettings.t) :
  assign_scalars o (assign_scalars o s) = assign_scalars o s.
Proof.
  unfold assign_scalars. simpl.
  destruct o as [osn ome ose oie or_ omm omg oms omp]; simpl.
  by destruct osn, ome, ose, oie, or_, omm, omg, oms.
Qed.

Lemma override_effect_again (o : TagSettingsOverride.t) (s : TagSettings.t) :
  override_effect o (override_effect o s).1
  = ((override_effect o s).1, (override_effect o s).2).
Proof.
  unfold override_effect.
  destruct (seq_truthy (TagSettingsOverride.merge_params o)) eqn:Hmp; simpl.
  - destruct (merge_positions 0 _ (TagSettings.merge_params s)) as [merged|e] eqn:Hrun;
      simpl.
    + rewrite (merge_positions_again _ _ _ _ Hrun).
      f_equal. unfold assign_scalars. simpl.
      destruct o as [osn ome ose oie or_ omm omg oms omp]; simpl.
      by destruct osn, ome, ose, oie, or_, omm, omg, oms.
    + rewrite Hrun. by rewrite assign_scalars_again.
  - by rewrite assign_scalars_again.
Qed.

(** X2: [_apply_override] is idempotent: applying the same override to
    the same base a second time gives the store and the outcome of the
    first time, an [IndexError] of the position loop included. *)
Theorem apply_override_idempotent (st : State) (base : loc)
    (override : TagSettingsOverride.t) (s : TagSettings.t) :
  settings_objs st !! base = Some s ->
  _apply_override base override (_apply_override base override st).1
  = _apply_override base override st.
Proof.
  intros Hs. rewrite (_apply_override_effect base override st s Hs). simpl.
  assert (Hlt : base < length (settings_objs st)) by (by eapply lookup_lt_Some).
  rewrite (_apply_override_effect base override _ (override_effect override s).1);
    [|simpl; by apply list_lookup_insert_eq].
  rewrite override_effect_again. simpl.
  by rewrite list_insert_insert_eq.
Qed.

End MergeAgain.

(** ** More on text *)

Section TextAgain.

Lemma lower_char_idem c : Text.lower_char (Text.lower_char c) = Text.lower_char c.
Proof. destruct c as [[] [] [] [] [] [] [] []]; reflexivity. Qed.

Lemma lower_idem s : Text.lower (Text.lower s) = Text.lower s.
Proof. induction s as [|c s IH]; simpl; [done|]. by rewrite lower_char_idem, IH. Qed.

Lemma lower_empty s : Text.lower s = "" -> s = "".
Proof. by destruct s. Qed.

Lemma lower_char_star c : Text.lower_char c = "*"%char -> c = "*"%char.
Proof. destruct c as [[] [] [] [] [] [] [] []]; intros Hc; first [reflexivity|discriminate Hc]. Qed.

Lemma lower_star s : Text.lower s = "*" -> s = "*".
Proof.
  destruct s as [|c [|d s]]; simpl; try done.
  intros [= Hc]. by rewrite (lower_char_star _ Hc).
Qed.

End TextAgain.

(** ** More on loading *)

Section LoadAgain.
Context `{PyFloat}.

Lemma normalize_string_nonempty (value : option string) :
  _normalize_string value <> Some "".
Proof. destruct value as [v|]; simpl; [|done]. by destruct (Text.strip v). Qed.

Lemma parse_row_from_row idx raw_row k o :
  _parse_row idx raw_row = (k, Some o) ->
  from_row o /\ forall key, k = Some key -> tag_key key.
Proof.
  unfold _parse_row. destruct (negb _); [done|].
  rewrite tag_value_tag_cell.
  destruct (Text.mem (tag_cell raw_row) _) eqn:Hmem; intros [= <- <-].
  - split; [|done]. repeat split; simpl; apply normalize_string_nonempty.
  - split; [repeat split; simpl; apply normalize_string_nonempty|].
    intros key [= <-].
    assert (Hnot : tag_cell raw_row ∉ [""; "*"; "default"; "__default__"]).
    { intros Hin%mem_elem_of. congruence. }
    split; [|split].
    + intros Hempty%lower_empty. apply Hnot. rewrite Hempty. apply list_elem_of_here.
    + intros Hstar%lower_star. apply Hnot. rewrite Hstar.
      apply list_elem_of_further, list_elem_of_here.
    + apply lower_idem.
Qed.

Lemma fragments_from_row idx rows :
  Forall (fun fr => forall o, fr.2 = Some o ->
            from_row o /\ forall key, fr.1 = Some key -> tag_key key)
         (fragments idx rows).
Proof.
  revert idx. induction rows as [|raw_row rows IH]; intros idx; simpl; constructor; [|apply IH].
  intros o Ho. destruct (_parse_row idx raw_row) as [k o'] eqn:Hrow. simpl in *. subst o'.
  by eapply parse_row_from_row.
Qed.

Lemma stored_from_row (frs : list (option string * option TagSettingsOverride.t)) :
  Forall (fun fr => forall o, fr.2 = Some o ->
            from_row o /\ forall key, fr.1 = Some key -> tag_key key) frs ->
  forall m : gmap string TagSettingsOverride.t,
    map_Forall (fun k o => tag_key k /\ from_row o) m ->
    map_Forall (fun k o => tag_key k /\ from_row o) (foldl store_fragment m frs).
Proof.
  induction 1 as [|fr frs Hfr _ IH]; intros m Hm; [done|].
  destruct fr as [[k|] [o|]]; simpl; try by apply IH.
  apply IH. destruct (Hfr o eq_refl) as [Ho Hk].
  apply map_Forall_insert_2; [|done]. split; [by apply Hk|done].
Qed.

Lemma default_rows_from_row idx rows :
  Forall from_row (default_rows (fragments idx rows)).
Proof.
  revert idx. induction rows as [|raw_row rows IH]; intros idx; simpl; [constructor|].
  unfold default_rows. simpl. fold (default_rows (fragments (S idx) rows)).
  destruct (_parse_row idx raw_row) as [[k|] [o|]] eqn:Hrow; simpl; try apply IH.
  constructor; [|apply IH]. by destruct (parse_row_from_row _ _ _ _ Hrow).
Qed.

Lemma apply_value_baseline (g : TagSettings.t) (o : TagSettingsOverride.t) :
  from_row o -> baseline g -> baseline (apply_value g o).
Proof.
  intros (Ho & Hsn & Hms) (Hname & Hstash & Hstrategy & Hg).
  destruct (apply_value_shape g o Ho Hg) as (merged & Hshape & _).
  destruct (apply_value_five g o Ho Hg) as [_ Hfive].
  split; [|split; [|split]]; [..|done]; rewrite Hshape; simpl.
  - done.
  - destruct (TagSettingsOverride.stash_name o) as [[|c v]|]; done.
  - destruct (TagSettingsOverride.merge_strategy o) as [[|c v]|]; done.
Qed.

Lemma folded_baseline (os : list TagSettingsOverride.t) :
  Forall from_row os ->
  forall g, baseline g -> baseline (foldl apply_value g os).
Proof.
  induction 1 as [|o os Ho _ IH]; intros g Hg; simpl; [done|].
  by apply IH, apply_value_baseline.
Qed.

Lemma builtin_baseline : baseline builtin_defaults.
Proof. by repeat split. Qed.

(** Whatever file [load] finds, the values it leaves are well formed. *)
Lemma loaded_well_formed (f : option csv_file) :
  baseline (loaded f).1
  /\ map_Forall (fun k o => tag_key k /\ from_row o) (loaded f).2.
Proof.
  destruct f as [f|]; simpl.
  - rewrite rows_effect_fold by done. simpl. split.
    + apply folded_baseline; [apply default_rows_from_row|apply builtin_baseline].
    + apply stored_from_row; [apply fragments_from_row|apply map_Forall_empty].
  - split; [apply builtin_baseline|apply map_Forall_empty].
Qed.




(** X5: when only the template exists and can be copied to a
    configuration path that can be examined, [load] leaves the
    template's content at the configuration path and is, result and
    final state, the [load] of a world in which that copy was already
    there. *)
Theorem load_provisions_from_template (base_path : option string) (st : State)
    (f : csv_file) :
  let config_path :=
    path_join (default (plugin_root (world st)) base_path) _CONFIG_FILENAME in
  files (world st) !! config_path = None ->
  can_examine (world st) (default (plugin_root (world st)) base_path) _CONFIG_FILENAME
  = true ->
  files (world st) !! path_join (plugin_root (world st)) _TEMPLATE_FILENAME = Some f ->
  copyfile_fails (world st) = false ->
  files (world (load base_path st).1) = <[config_path := f]> (files (world st))
  /\ load base_path st
     = load base_path
         (with_world (with_files (<[config_path := f]> (files (world st))) (world st)) st).
Proof.
  intros config_path Hconfig Hcan Htemplate Hcopy.
  rewrite load_run by done.
  rewrite load_run
    by (simpl; eapply can_examine_file; fold config_path; apply lookup_insert_eq).
  cbv zeta. simpl. fold config_path.
  assert (Hprov : provision config_path
                    (path_join (plugin_root (world st)) _TEMPLATE_FILENAME) (world st)
                  = with_files (<[config_path := f]> (files (world st))) (world st)).
  { unfold provision. by rewrite Hconfig, Htemplate, Hcopy. }
  assert (Hprov' : provision config_path
                    (path_join (plugin_root (world st)) _TEMPLATE_FILENAME)
                    (with_files (<[config_path := f]> (files (world st))) (world st))
                  = with_files (<[config_path := f]> (files (world st))) (world st)).
  { unfold provision. simpl. by rewrite lookup_insert_eq. }
  rewrite Hprov, Hprov'. by split.
Qed.

(** A copy that fails on the way: [load] parses what the copy left at
    the configuration path. *)
Lemma load_after_failed_copy (base_path : option string) (st : State)
    (f part : csv_file) :
  let config_path :=
    path_join (default (plugin_root (world st)) base_path) _CONFIG_FILENAME in
  files (world st) !! config_path = None ->
  can_examine (world st) (default (plugin_root (world st)) base_path) _CONFIG_FILENAME
  = true ->
  files (world st) !! path_join (plugin_root (world st)) _TEMPLATE_FILENAME = Some f ->
  copyfile_fails (world st) = true ->
  partial_copy (world st) = Some part ->
  load base_path st
  = load base_path
      (with_world (with_files (<[config_path := part]> (files (world st))) (world st)) st).
Proof.
  intros config_path Hconfig Hcan Htemplate Hcopy Hpart.
  rewrite load_run by done.
  rewrite load_run
    by (simpl; eapply can_examine_file; fold config_path; apply lookup_insert_eq).
  cbv zeta. simpl. fold config_path.
  assert (Hprov : provision config_path
                    (path_join (plugin_root (world st)) _TEMPLATE_FILENAME) (world st)
                  = with_files (<[config_path := part]> (files (world st))) (world st)).
  { unfold provision. by rewrite Hconfig, Htemplate, Hcopy, Hpart. }
  assert (Hprov' : provision config_path
                    (path_join (plugin_root (world st)) _TEMPLATE_FILENAME)
                    (with_files (<[config_path := part]> (files (world st))) (world st))
                  = with_files (<[config_path := part]> (files (world st))) (world st)).
  { unfold provision. simpl. by rewrite lookup_insert_eq. }
  by rewrite Hprov, Hprov'.
Qed.

Lemma fragments_blank idx rows :
  Forall (fun raw_row => forall key value,
            Field key (Some value) ∈ raw_row -> Text.blank value = true) rows ->
  Forall (fun fr => fr = (None, None)) (fragments idx rows).
Proof.
  intros Hrows. revert idx.
  induction Hrows as [|raw_row rows Hrow _ IH]; intros idx; simpl; constructor; [|apply IH].
  by apply parse_row_blank.
Qed.

Lemma no_fragments_no_change (frs : list (option string * option TagSettingsOverride.t)) :
  Forall (fun fr => fr = (None, None)) frs ->
  default_rows frs = [] /\ forall m, foldl store_fragment m frs = m.
Proof.
  induction 1 as [|fr frs -> _ [IHd IHs]]; [done|].
  split; [exact IHd|]. intros m. simpl. apply IHs.
Qed.

(** X6: a configuration file that yields no data row, or only rows whose
    cells are all empty or white space, gives the built-in defaults with
    an empty overrides dict, whether the reader ends or raises; a file
    that cannot be opened or decoded from its start is such a file. *)
Theorem load_blank_file (base_path : option string) (st : State) (f : csv_file) :
  files (world st)
    !! path_join (default (plugin_root (world st)) base_path) _CONFIG_FILENAME = Some f ->
  Forall (fun raw_row => forall key value,
            Field key (Some value) ∈ raw_row -> Text.blank value = true)
         (data_rows f) ->
  exists st' c cfg,
    load base_path st = (st', Returned c)
    /\ snapshot st' c cfg builtin_defaults ∅
    /\ world st' = world st.
Proof.
  intros Hfile Hblank. rewrite load_run by (by eapply can_examine_file). cbv zeta.
  unfold provision. rewrite !Hfile. unfold loaded.
  rewrite rows_effect_fold by done. simpl.
  destruct (no_fragments_no_change _ (fragments_blank 2 _ Hblank)) as [-> ->]. simpl.
  eexists _, _, _. split; [done|].
  split; [repeat split; simpl; apply lookup_snoc|done].
Qed.




End LoadAgain.

(** ** More on the row parser *)

Section RowParserAgain.
Context `{PyFloat}.

Lemma normalize_same (row row' : list raw_item) :
  Forall2 same_item row row' ->
  forall normalized,
    foldl normalize_item normalized row = foldl normalize_item normalized row'.
Proof.
  induction 1 as [|i j row row' Hij _ IH]; intros normalized; [done|].
  cbn [foldl].
  assert (Hitem : normalize_item normalized i = normalize_item normalized j).
  { destruct i as [key value|cells], j as [key' value'|cells']; try done.
    destruct Hij as [Hkey Hvalue]. unfold normalize_item. by rewrite Hkey, Hvalue. }
  rewrite Hitem. apply IH.
Qed.

(** X9: [_parse_row] looks at a row only through its normalized headers
    and trimmed cells: two rows whose entries have, one by one, headers
    with the same normalized key and cells equal up to surrounding white
    space give the same fragment, whatever their row numbers and
    whatever surplus cells they carry. *)
Theorem parse_row_same_columns (n n' : nat) (row row' : list raw_item) :
  Forall2 same_item row row' ->
  _parse_row n row = _parse_row n' row'.
Proof.
  intros Hsame. unfold _parse_row, normalize_row.
  by rewrite (normalize_same _ _ Hsame).
Qed.

Lemma normalize_tag_only (raw_row : list raw_item) :
  (forall key value, Field key (Some value) ∈ raw_row ->
     _normalize_key key ∈ tag_headers \/ Text.blank value = true) ->
  forall normalized : gmap string (option string),
    map_Forall (fun k v => k ∈ tag_headers \/ v = None \/ v = Some "") normalized ->
    map_Forall (fun k v => k ∈ tag_headers \/ v = None \/ v = Some "")
      (foldl normalize_item normalized raw_row).
Proof.
  induction raw_row as [|[key value|cells] raw_row IH]; intros Hrow normalized Hn; simpl.
  - done.
  - apply IH.
    + intros k v Hin. apply (Hrow k v). by right.
    + apply map_Forall_insert_2; [|done].
      destruct value as [v|]; simpl; [|by right; left].
      destruct (Hrow key v) as [Htag|Hblank]; [by left|by left|].
      right. right. f_equal. by apply strip_blank.
  - apply IH; [|done]. intros k v Hin. apply (Hrow k v). by right.
Qed.

Lemma cell_no_text (normalized : gmap string (option string)) (key : string) :
  map_Forall (fun k v => k ∈ tag_headers \/ v = None \/ v = Some "") normalized ->
  key ∉ tag_headers ->
  cell normalized key = None \/ cell normalized key = Some "".
Proof.
  intros Hn Hkey. unfold cell.
  destruct (normalized !! key) as [v|] eqn:Hv; simpl; [|by left].
  destruct (Hn key v Hv) as [Htag|Hv']; [done|exact Hv'].
Qed.

Lemma not_tag_header (key : string) :
  key <> "tagname" -> key <> "tag" -> key ∉ tag_headers.
Proof.
  intros H1 H2 Hin. unfold tag_headers in Hin.
  repeat (apply elem_of_cons in Hin as [Hin|Hin]; [done|]).
  by apply elem_of_nil in Hin.
Qed.

(** X10: a row that has text only under the tag headers parses to an
    override without opinions: no scalar field and no merge position is
    set, so that storing or applying it overrides nothing. *)
Theorem parse_row_tag_only (n : nat) (raw_row : list raw_item)
    (k : option string) (o : TagSettingsOverride.t) :
  (forall key value, Field key (Some value) ∈ raw_row ->
     _normalize_key key ∈ tag_headers \/ Text.blank value = true) ->
  _parse_row n raw_row = (k, Some o) ->
  no_opinion o.
Proof.
  intros Hrow. unfold _parse_row. destruct (negb _); [done|].
  pose proof (normalize_tag_only raw_row Hrow ∅ (map_Forall_empty _)) as Hn.
  fold (normalize_row raw_row) in Hn.
  assert (Hstr : forall key, key <> "tagname" -> key <> "tag" ->
            _normalize_string (cell (normalize_row raw_row) key) = None).
  { intros key H1 H2.
    by destruct (cell_no_text _ key Hn (not_tag_header _ H1 H2)) as [-> | ->]. }
  assert (Hbool : forall key, key <> "tagname" -> key <> "tag" ->
            _parse_bool (cell (normalize_row raw_row) key) = None).
  { intros key H1 H2.
    by destruct (cell_no_text _ key Hn (not_tag_header _ H1 H2)) as [-> | ->]. }
  assert (Hfloat : forall key, key <> "tagname" -> key <> "tag" ->
            _parse_float (cell (normalize_row raw_row) key) = None).
  { intros key H1 H2.
    by destruct (cell_no_text _ key Hn (not_tag_header _ H1 H2)) as [-> | ->]. }
  intros Hparse.
  assert (Ho : o = empty_override).
  { destruct (Text.mem _ _); injection Hparse as _ <-; unfold empty_override; simpl;
      rewrite !Hstr, !Hbool, !Hfloat by done; done. }
  rewrite Ho. unfold no_opinion, empty_override. simpl.
  repeat split; try done. by repeat constructor.
Qed.

End RowParserAgain.

(** ** More on resolution *)

Section ResolveAgain.
Context `{PyFloat}.

Lemma truthy_lower s : Text.truthy (Text.lower s) = Text.truthy s.
Proof. by destruct s. Qed.

Lemma override_effect_rename (o : TagSettingsOverride.t) (a : string) (g : TagSettings.t) :
  override_effect o (TagSettings.set_tag_name a g)
  = (TagSettings.set_tag_name a (override_effect o g).1, (override_effect o g).2).
Proof.
  unfold override_effect. simpl.
  destruct (seq_truthy _); [|done].
  by destruct (merge_positions _ _ _).
Qed.

Lemma fallbacks_same_behaviour n n' sfx sfx' (s s' : TagSettings.t) :
  same_behaviour s s' -> same_behaviour (fallbacks n sfx s) (fallbacks n' sfx' s').
Proof.
  intros (Hme & Hse & Hie & Hr & Hmm & Hmg & Hms & Hmp).
  unfold fallbacks.
  destruct (negb (opt_truthy (TagSettings.stash_name s))),
           (negb (opt_truthy (TagSettings.stash_name s'))); simpl; rewrite Hms;
    destruct (negb (Text.truthy (TagSettings.merge_strategy s'))); by repeat split.
Qed.

Lemma rename_same_behaviour (o : option TagSettingsOverride.t) a a' (g : TagSettings.t) :
  same_behaviour
    (match o with
     | Some o' => (override_effect o' (TagSettings.set_tag_name a g)).1
     | None => TagSettings.set_tag_name a g
     end)
    (match o with
     | Some o' => (override_effect o' (TagSettings.set_tag_name a' g)).1
     | None => TagSettings.set_tag_name a' g
     end).
Proof.
  destruct o as [o'|]; [|by repeat split].
  rewrite !override_effect_rename. simpl. by repeat split.
Qed.

(** X11: [resolve] looks the override up without regard to case and to
    surrounding white space: two inputs with the same trimmed,
    lower-cased text resolve to settings with the same toggles,
    thresholds, merge strategy and merge parameters, and two inputs with
    the same trimmed text resolve to equal settings. *)
Theorem resolve_ignores_case_and_white_space (st : State) (self : loc) (t t' : string)
    (cfg : TagConfiguration.t) (global : TagSettings.t)
    (overrides : gmap string TagSettingsOverride.t) :
  snapshot st self cfg global overrides ->
  five_positions global overrides ->
  Text.lower (Text.strip t) = Text.lower (Text.strip t') ->
  exists st1 st2 e1 e2 s1 s2,
    resolve self t st = (st1, Returned e1)
    /\ resolve self t' st = (st2, Returned e2)
    /\ settings_objs st1 !! e1 = Some s1
    /\ settings_objs st2 !! e2 = Some s2
    /\ same_behaviour s1 s2
    /\ (Text.strip t = Text.strip t' -> s1 = s2).
Proof.
  intros Hsnap Hfive Hlower.
  destruct (resolve_returns st self t cfg global overrides Hsnap Hfive) as (s1 & Hrun1 & Hs1).
  destruct (resolve_returns st self t' cfg global overrides Hsnap Hfive) as (s2 & Hrun2 & Hs2).
  eexists _, _, _, _, s1, s2. split; [done|]. split; [done|]. simpl.
  split; [apply lookup_snoc|]. split; [apply lookup_snoc|].
  assert (Hfor : override_for overrides (Text.strip t)
                 = override_for overrides (Text.strip t')).
  { unfold override_for.
    rewrite <- (truthy_lower (Text.strip t)), <- (truthy_lower (Text.strip t')).
    by rewrite Hlower. }
  split.
  - rewrite Hs1, Hs2, Hfor. apply fallbacks_same_behaviour, rename_same_behaviour.
  - intros Hstrip. rewrite Hs1, Hs2, Hfor. by rewrite Hstrip.
Qed.

End ResolveAgain.

(** ** More on the cached store *)

Section CachedStoreAgain.
Context `{PyFloat}.


End CachedStoreAgain.

(** ** Loading and resolving together *)

Section Layers.
Context `{PyFloat}.

Lemma folded_field {A B} (get : TagSettings.t -> A)
    (opinion : TagSettingsOverride.t -> option B) (upd : B -> A)
    (os : list TagSettingsOverride.t) :
  Forall parsed os ->
  (forall o s, parsed o ->
     get (assign_scalars o s)
     = match opinion o with Some b => upd b | None => get s end) ->
  (forall merged s, get (TagSettings.set_merge_params merged s) = get s) ->
  get (foldl apply_value builtin_defaults os)
  = match last_some (opinion <$> os) with
    | Some b => upd b
    | None => get builtin_defaults
    end.
Proof.
  intros Hos Hassign Hkeep.
  apply fold_field; [|done|done].
  intros o s Ho Hs. destruct (apply_value_shape s o) as (merged & -> & _); [apply Ho|done|].
  rewrite Hkeep. by apply Hassign.
Qed.

Lemma overridden_field {A B} (get : TagSettings.t -> A)
    (opinion : TagSettingsOverride.t -> option B) (upd : B -> A)
    (tag_row : option TagSettingsOverride.t) (a : string) (g : TagSettings.t) :
  (forall o s, parsed o ->
     get (assign_scalars o s)
     = match opinion o with Some b => upd b | None => get s end) ->
  (forall merged s, get (TagSettings.set_merge_params merged s) = get s) ->
  (forall a s, get (TagSettings.set_tag_name a s) = get s) ->
  (forall o, tag_row = Some o -> parsed o) ->
  length (TagSettings.merge_params g) = 5 ->
  get (match tag_row with
       | Some o => (override_effect o (TagSettings.set_tag_name a g)).1
       | None => TagSettings.set_tag_name a g
       end)
  = match tag_row ≫= opinion with Some b => upd b | None => get g end.
Proof.
  intros Hassign Hkeep Hname Hrow Hg.
  destruct tag_row as [o|]; simpl; [|apply Hname].
  fold (apply_value (TagSettings.set_tag_name a g) o).
  destruct (apply_value_shape (TagSettings.set_tag_name a g) o) as (merged & -> & _);
    [apply (Hrow o eq_refl)|done|].
  rewrite Hkeep, Hassign by (by apply Hrow). by rewrite Hname.
Qed.

Lemma rows_for_parsed k idx rows :
  Forall parsed (rows_for k (fragments idx rows)).
Proof.
  revert idx. induction rows as [|raw_row rows IH]; intros idx; simpl; [constructor|].
  unfold rows_for. simpl. fold (rows_for k (fragments (S idx) rows)).
  destruct (_parse_row idx raw_row) as [[k'|] [o|]] eqn:Hrow; simpl; try apply IH.
  case_decide; [|apply IH]. constructor; [by eapply parse_row_parsed|apply IH].
Qed.

Lemma last_Forall {A} (P : A -> Prop) (l : list A) (x : A) :
  Forall P l -> last l = Some x -> P x.
Proof.
  intros Hl Hx. apply (proj1 (Forall_forall P l) Hl).
  apply last_Some in Hx as [l' ->]. apply elem_of_app. right. apply list_elem_of_here.
Qed.

Local Ltac field_side Htag :=
  first [ done
        | exact Htag
        | intros ? ? _; simpl; by repeat case_match ].

(** X13: what [resolve] returns on the snapshot [load] made of a
    configuration file, for the three toggles and the three thresholds:
    the value is the one of the last row for the tag (found without
    regard to case) when that row has an opinion, else the one of the
    last default row that has an opinion, else the built-in default
    ([True], [True], [False], and [None] for the thresholds).  The rows
    are the ones read before the reader ended or raised. *)
Theorem load_then_resolve_layers (base_path : option string) (t : string) (st : State)
    (f : csv_file) :
  files (world st)
    !! path_join (default (plugin_root (world st)) base_path) _CONFIG_FILENAME = Some f ->
  exists st' effective s,
    (c <- load base_path ;; resolve c t) st = (st', Returned effective)
    /\ settings_objs st' !! effective = Some s
    /\ let frs := fragments 2 (data_rows f) in
       let defaults := default_rows frs in
       let tag_row :=
         if decide (Text.strip t = "") then None
         else last (rows_for (Text.lower (Text.strip t)) frs) in
       TagSettings.markers_enabled s
       = default (default true (last_some (TagSettingsOverride.markers_enabled <$> defaults)))
           (tag_row ≫= TagSettingsOverride.markers_enabled)
       /\ TagSettings.scene_tag_enabled s
          = default (default true (last_some (TagSettingsOverride.scene_tag_enabled <$> defaults)))
              (tag_row ≫= TagSettingsOverride.scene_tag_enabled)
       /\ TagSettings.image_enabled s
          = default (default false (last_some (TagSettingsOverride.image_enabled <$> defaults)))
              (tag_row ≫= TagSettingsOverride.image_enabled)
       /\ TagSettings.required_scene_tag_duration s
          = match tag_row ≫= TagSettingsOverride.required_scene_tag_duration with
            | Some v => Some v
            | None => last_some (TagSettingsOverride.required_scene_tag_duration <$> defaults)
            end
       /\ TagSettings.min_marker_duration s
          = match tag_row ≫= TagSettingsOverride.min_marker_duration with
            | Some v => Some v
            | None => last_some (TagSettingsOverride.min_marker_duration <$> defaults)
            end
       /\ TagSettings.max_gap s
          = match tag_row ≫= TagSettingsOverride.max_gap with
            | Some v => Some v
            | None => last_some (TagSettingsOverride.max_gap <$> defaults)
            end.
Proof.
  intros Hfile.
  erewrite bind_returned; [|by eapply load_run, can_examine_file]. cbv zeta.
  unfold provision. rewrite !Hfile. unfold loaded.
  rewrite rows_effect_fold by done. simpl.
  set (frs := fragments 2 (data_rows f)).
  set (g := foldl apply_value builtin_defaults (default_rows frs)).
  set (m := foldl store_fragment ∅ frs).
  assert (Hg : length (TagSettings.merge_params g) = 5).
  { destruct (loaded_well_formed (Some f)) as [(_ & _ & _ & Hlen) _].
    unfold loaded in Hlen. by rewrite rows_effect_fold in Hlen. }
  assert (Hm : forall k, m !! k = last (rows_for k frs)).
  { intros k. unfold m. rewrite stored_lookup. by destruct (last (rows_for k frs)). }
  assert (Hrow : forall k o, last (rows_for k frs) = Some o -> parsed o).
  { intros k o Ho. eapply last_Forall; [apply rows_for_parsed|exact Ho]. }
  match goal with
  | |- context [resolve ?c t ?st1] =>
      destruct (resolve_returns st1 c t
                  (TagConfiguration.mk
                     (path_join (default (plugin_root (world st)) base_path) _CONFIG_FILENAME)
                     (length (settings_objs st)) (length (dict_objs st))
                     (_get_tag_suffix (world st)))
                  g m) as (s & Hrun & Hs)
  end.
  { repeat split; simpl; apply lookup_snoc. }
  { split; [done|]. intros k o Hk. rewrite Hm in Hk. by apply (Hrow k o Hk). }
  rewrite Hrun. eexists _, _, s. split; [done|]. simpl.
  split; [apply lookup_snoc|].
  assert (Hfor : override_for m (Text.strip t)
                 = if decide (Text.strip t = "") then None
                   else last (rows_for (Text.lower (Text.strip t)) frs)).
  { unfold override_for. case_decide as Hd; [by rewrite Hd|].
    apply truthy_true in Hd. by rewrite Hd, Hm. }
  rewrite Hfor in Hs.
  set (tag_row := if decide (Text.strip t = "") then None
                  else last (rows_for (Text.lower (Text.strip t)) frs)) in *.
  assert (Htag : forall o, tag_row = Some o -> parsed o).
  { intros o. unfold tag_row. case_decide; [done|]. apply Hrow. }
  assert (Hfall : forall (A : Type) (get : TagSettings.t -> A),
            (forall v x, get (TagSettings.set_stash_name v x) = get x) ->
            (forall v x, get (TagSettings.set_merge_strategy v x) = get x) ->
            forall n sfx x, get (fallbacks n sfx x) = get x).
  { intros A get Hsn Hms n sfx x. unfold fallbacks.
    destruct (negb (opt_truthy _)); simpl;
      destruct (negb (Text.truthy _)); by rewrite ?Hms, ?Hsn. }
  pose proof (default_rows_parsed 2 (data_rows f)) as Hdefaults. fold frs in Hdefaults.
  rewrite Hs. subst g.
  repeat split.
  - rewrite (Hfall _ TagSettings.markers_enabled) by done.
    rewrite (overridden_field TagSettings.markers_enabled
               TagSettingsOverride.markers_enabled id) by field_side Htag.
    rewrite (folded_field TagSettings.markers_enabled
               TagSettingsOverride.markers_enabled id) by field_side Htag.
    unfold default. by repeat case_match.
  - rewrite (Hfall _ TagSettings.scene_tag_enabled) by done.
    rewrite (overridden_field TagSettings.scene_tag_enabled
               TagSettingsOverride.scene_tag_enabled id) by field_side Htag.
    rewrite (folded_field TagSettings.scene_tag_enabled
               TagSettingsOverride.scene_tag_enabled id) by field_side Htag.
    unfold default. by repeat case_match.
  - rewrite (Hfall _ TagSettings.image_enabled) by done.
    rewrite (overridden_field TagSettings.image_enabled
               TagSettingsOverride.image_enabled id) by field_side Htag.
    rewrite (folded_field TagSettings.image_enabled
               TagSettingsOverride.image_enabled id) by field_side Htag.
    unfold default. by repeat case_match.
  - rewrite (Hfall _ TagSettings.required_scene_tag_duration) by done.
    rewrite (overridden_field TagSettings.required_scene_tag_duration
               TagSettingsOverride.required_scene_tag_duration Some) by field_side Htag.
    rewrite (folded_field TagSettings.required_scene_tag_duration
               TagSettingsOverride.required_scene_tag_duration Some) by field_side Htag.
    unfold default. by repeat case_match.
  - rewrite (Hfall _ TagSettings.min_marker_duration) by done.
    rewrite (overridden_field TagSettings.min_marker_duration
               TagSettingsOverride.min_marker_duration Some) by field_side Htag.
    rewrite (folded_field TagSettings.min_marker_duration
               TagSettingsOverride.min_marker_duration Some) by field_side Htag.
    unfold default. by repeat case_match.
  - rewrite (Hfall _ TagSettings.max_gap) by done.
    rewrite (overridden_field TagSettings.max_gap TagSettingsOverride.max_gap Some)
      by field_side Htag.
    rewrite (folded_field TagSettings.max_gap TagSettingsOverride.max_gap Some)
      by field_side Htag.
    unfold default. by repeat case_match.
Qed.

End Layers.

(** ** Header keys *)

Section HeaderKeys.
Local Open Scope list_scope.

Lemma isspace_lower_char c : Text.isspace (Text.lower_char c) = Text.isspace c.
Proof. destruct c as [[] [] [] [] [] [] [] []]; reflexivity. Qed.

Lemma lstrip_chars_lower l :
  Text.lstrip_chars (map Text.lower_char l) = map Text.lower_char (Text.lstrip_chars l).
Proof.
  induction l as [|c l IH]; simpl; [done|].
  rewrite isspace_lower_char. by destruct (Text.isspace c).
Qed.

Lemma strip_chars_lower l :
  Text.strip_chars (map Text.lower_char l) = map Text.lower_char (Text.strip_chars l).
Proof.
  unfold Text.strip_chars.
  by rewrite lstrip_chars_lower, <- map_rev, lstrip_chars_lower, <- map_rev.
Qed.

Lemma chars_lower s :
  list_ascii_of_string (Text.lower s) = map Text.lower_char (list_ascii_of_string s).
Proof. induction s as [|c s IH]; simpl; [done|]. by rewrite IH. Qed.

Lemma lower_of_chars l :
  Text.lower (string_of_list_ascii l) = string_of_list_ascii (map Text.lower_char l).
Proof. induction l as [|c l IH]; simpl; [done|]. by rewrite IH. Qed.

Lemma strip_lower s : Text.strip (Text.lower s) = Text.lower (Text.strip s).
Proof.
  unfold Text.strip. by rewrite chars_lower, strip_chars_lower, lower_of_chars.
Qed.

Lemma remove_char_chars c s :
  Text.remove_char c s = string_of_list_ascii (without c (list_ascii_of_string s)).
Proof.
  induction s as [|d s IH]; simpl; [done|].
  destruct (Ascii.eqb c d); simpl; by rewrite IH.
Qed.

Lemma without_app c l1 l2 : without c (l1 ++ l2) = without c l1 ++ without c l2.
Proof.
  induction l1 as [|d l1 IH]; simpl; [done|].
  destruct (Ascii.eqb c d); simpl; by rewrite IH.
Qed.

Lemma without_rev c l : without c (rev l) = rev (without c l).
Proof.
  induction l as [|d l IH]; simpl; [done|].
  rewrite without_app, IH. simpl.
  destruct (Ascii.eqb c d); simpl; [by rewrite app_nil_r|done].
Qed.

Lemma without_lstrip l :
  Forall (fun c => Text.isspace c = true -> c = " "%char) l ->
  without " " (Text.lstrip_chars l) = without " " l.
Proof.
  induction 1 as [|c l Hc _ IH]; simpl; [done|].
  destruct (Text.isspace c) eqn:Hspace; [|done].
  rewrite (Hc eq_refl). simpl. exact IH.
Qed.

Lemma spaces_lstrip l :
  Forall (fun c => Text.isspace c = true -> c = " "%char) l ->
  Forall (fun c => Text.isspace c = true -> c = " "%char) (Text.lstrip_chars l).
Proof.
  induction 1 as [|c l Hc Hl IH]; simpl; [constructor|].
  destruct (Text.isspace c) eqn:Hspace; [done|].
  constructor; [|done]. intros Htrue. congruence.
Qed.

Lemma without_strip l :
  Forall (fun c => Text.isspace c = true -> c = " "%char) l ->
  without " " (Text.strip_chars l) = without " " l.
Proof.
  intros Hl. unfold Text.strip_chars.
  rewrite without_rev, without_lstrip, without_rev, rev_involutive.
  - by apply without_lstrip.
  - by apply List.Forall_rev, spaces_lstrip.
Qed.

Lemma remove_space_strip s :
  spaces_only s -> Text.remove_char " " (Text.strip s) = Text.remove_char " " s.
Proof.
  intros Hs. rewrite !remove_char_chars. unfold Text.strip.
  by rewrite list_ascii_of_string_of_list_ascii, without_strip.
Qed.

Lemma spaces_only_lower s : spaces_only s -> spaces_only (Text.lower s).
Proof.
  unfold spaces_only. rewrite chars_lower. intros Hs.
  apply Forall_fmap. eapply Forall_impl; [exact Hs|].
  intros c Hc. simpl. rewrite isspace_lower_char. intros Hspace.
  by rewrite (Hc Hspace).
Qed.

Lemma normalize_key_squeeze k :
  spaces_only k -> _normalize_key k = squeeze (Text.lower k).
Proof.
  intros Hk. unfold _normalize_key, squeeze.
  rewrite <- strip_lower. by rewrite remove_space_strip by (by apply spaces_only_lower).
Qed.

(** X14: header tolerance.  For headers whose only white space is the
    space character, [_normalize_key] gives the same key to two headers
    exactly when they agree, without regard to case, once their spaces,
    hyphens and underscores are taken out. *)
Theorem normalize_key_tolerant (k k' : string) :
  spaces_only k -> spaces_only k' ->
  (_normalize_key k = _normalize_key k'
   <-> squeeze (Text.lower k) = squeeze (Text.lower k')).
Proof.
  intros Hk Hk'. by rewrite !normalize_key_squeeze.
Qed.

End HeaderKeys.

(** ** The Stash client *)

Section ApiKey.
Local Open Scope list_scope.

Lemma lstrip_chars_nil l : Text.lstrip_chars l = [] -> forallb Text.isspace l = true.
Proof.
  induction l as [|c l IH]; simpl; [done|].
  destruct (Text.isspace c); [done|discriminate].
Qed.

Lemma lstrip_chars_spaces l :
  forallb Text.isspace (Text.lstrip_chars l) = true -> forallb Text.isspace l = true.
Proof.
  induction l as [|c l IH]; simpl; [done|].
  destruct (Text.isspace c) eqn:Hc; simpl; [done|]. by rewrite Hc.
Qed.

Lemma forallb_rev {A} (f : A -> bool) l : forallb f (rev l) = forallb f l.
Proof.
  induction l as [|x l IH]; simpl; [done|].
  rewrite forallb_app, IH. simpl. rewrite andb_true_r. apply andb_comm.
Qed.

Lemma list_ascii_empty s : string_of_list_ascii s = "" -> s = [].
Proof. by destruct s. Qed.

Lemma strip_empty_blank s : Text.strip s = "" -> Text.blank s = true.
Proof.
  unfold Text.strip, Text.strip_chars, Text.blank. intros Hs%list_ascii_empty.
  apply lstrip_chars_spaces. rewrite <-forallb_rev. apply lstrip_chars_nil.
  rewrite <-(rev_involutive (Text.lstrip_chars _)). by rewrite Hs.
Qed.

(** X15 ([_have_valid_api_key]).  A key is valid exactly when it is a
    string other than the placeholder [REPLACE_WITH_API_KEY] that holds a
    character which is not white space: a missing key, the empty key and
    a key of white space only are not valid. *)
Theorem have_valid_api_key_iff (api_key : option string) :
  _have_valid_api_key api_key = true
  <-> exists k, api_key = Some k /\ k <> "REPLACE_WITH_API_KEY" /\ Text.blank k = false.
Proof.
  destruct api_key as [k|]; simpl.
  2:{ split; [done|]. by intros (k & ? & _). }
  rewrite !andb_true_iff, !negb_true_iff, !String.eqb_neq. split.
  - intros [[_ Hk] Hstrip]. exists k. split; [done|]. split; [done|].
    destruct (Text.blank k) eqn:Hb; [|done]. by apply strip_blank in Hb.
  - intros (k' & [= <-] & Hk & Hb). split; [split; [|done]|].
    + destruct k; [|done]. done.
    + intros Hs%strip_empty_blank. congruence.
Qed.

End ApiKey.

Section ClientFacts.
Context `{StashServer}.

(** X16 ([fetch_tag_id]).  An id that [fetch_tag_id] returned is served
    from the cache afterwards: the same name asked again with the cache
    in use gives the same id whatever the other arguments, and neither
    the server nor the caches nor the caller's dict are touched.  When
    the id came from the server it is not zero and
    [get_stash_tag_name] gives the name back, from the cache as well. *)
Theorem fetch_tag_id_then_cached (tag_name : string) (parent_id : option Z)
    (create_if_missing use_cache : bool) (add_to_cache : option (gmap string Z))
    (api api' : Api) (add_to_cache' : option (gmap string Z)) (i : Z) :
  fetch_tag_id tag_name parent_id create_if_missing use_cache add_to_cache api
    = (api', add_to_cache', Ok (Some i)) ->
  (forall parent_id' create_if_missing' later,
      fetch_tag_id tag_name parent_id' create_if_missing' true later api'
        = (api', later, Ok (Some i)))
  /\ ((use_cache = false \/ tag_id_cache api !! tag_name = None) ->
      i <> 0%Z /\ get_stash_tag_name i api' = (api', Ok (Some tag_name))).
Proof.
  unfold fetch_tag_id.
  destruct (if use_cache then tag_id_cache api !! tag_name else None) as [cached|] eqn:Hhit.
  - intros [= <- <- <-]. split.
    + intros p c later. destruct use_cache; [|done]. by rewrite Hhit.
    + intros [->|Hmiss]; [done|]. destruct use_cache; [congruence|done].
  - destruct (negb (stash_interface api)); [done|].
    destruct (ask_tag_id _ _ _ _) as [srv' [[j|]|e]]; try done.
    case_bool_decide as Hj; [|done]. intros [= <- <- <-]. split.
    + intros p c later. simpl. by rewrite lookup_insert_eq.
    + intros _. split; [done|]. unfold get_stash_tag_name. simpl.
      by rewrite lookup_insert_eq.
Qed.

(** X17 ([get_stash_tag_name]).  The call never raises.  A name it
    returned is served from the cache afterwards, and when the name came
    from the server [fetch_tag_id] maps it back to the id without asking
    the server. *)
Theorem get_stash_tag_name_then_cached (tag_id : Z) (api : Api) :
  exists api' r,
    get_stash_tag_name tag_id api = (api', Ok r)
    /\ forall name, r = Some name ->
        get_stash_tag_name tag_id api' = (api', Ok (Some name))
        /\ (tag_name_cache api !! tag_id = None ->
            forall parent_id create_if_missing later,
              fetch_tag_id name parent_id create_if_missing true later api'
                = (api', later, Ok (Some tag_id))).
Proof.
  unfold get_stash_tag_name.
  destruct (tag_name_cache api !! tag_id) as [name|] eqn:Hhit.
  - exists api, (Some name). split; [done|]. intros ? [= <-]. rewrite Hhit.
    split; [done|]. done.
  - unfold lookup_tag_name. destruct (negb (stash_interface api)).
    { exists api, None. split; [done|]. done. }
    destruct (find_tag_by_id tag_id (remote api)) as [srv' [[d|]|e]];
      try (eexists _, None; split; [done|]; done).
    destruct (dict_truthy d); [|eexists _, None; split; [done|]; done].
    destruct (name_field d) as [name|]; [|eexists _, None; split; [done|]; done].
    eexists _, (Some name). split; [done|]. intros ? [= <-]. simpl.
    rewrite lookup_insert_eq. split; [done|]. intros _ p c later.
    unfold fetch_tag_id. simpl. by rewrite lookup_insert_eq.
Qed.

Lemma linked_insert (api : Api) srv name i :
  caches_linked api ->
  caches_linked (mkApi _ (stash_interface api) srv
                   (<[name := i]> (tag_id_cache api))
                   (<[i := name]> (tag_name_cache api))).
Proof.
  intros [Hid Hname]. split; simpl.
  - intros n j Hn. destruct (decide (j = i)) as [->|Hj].
    { rewrite lookup_insert_eq. by eexists. }
    rewrite lookup_insert_ne by congruence.
    destruct (decide (n = name)) as [->|Hne].
    { rewrite lookup_insert_eq in Hn. congruence. }
    rewrite lookup_insert_ne in Hn by congruence. by apply (Hid n).
  - intros j n Hj. destruct (decide (n = name)) as [->|Hn].
    { rewrite lookup_insert_eq. by eexists. }
    rewrite lookup_insert_ne by congruence.
    destruct (decide (j = i)) as [->|Hne].
    { rewrite lookup_insert_eq in Hj. congruence. }
    rewrite lookup_insert_ne in Hj by congruence. by apply (Hname j).
Qed.

Lemma linked_remote (api : Api) srv :
  caches_linked api -> caches_linked (with_remote srv api).
Proof. done. Qed.

Lemma fetch_tag_id_linked tag_name parent_id create_if_missing use_cache add_to_cache
    (api : Api) :
  caches_linked api ->
  caches_linked
    (fetch_tag_id tag_name parent_id create_if_missing use_cache add_to_cache api).1.1.
Proof.
  intros Hl. unfold fetch_tag_id.
  destruct (if use_cache then _ else _); [done|].
  destruct (negb _); [done|].
  destruct (ask_tag_id _ _ _ _) as [srv' [[j|]|e]]; simpl; try done.
  case_bool_decide; simpl; [|done]. by apply linked_insert.
Qed.

Lemma get_stash_tag_name_linked tag_id (api : Api) :
  caches_linked api -> caches_linked (get_stash_tag_name tag_id api).1.
Proof.
  intros Hl. unfold get_stash_tag_name.
  destruct (tag_name_cache api !! tag_id); [done|].
  unfold lookup_tag_name. destruct (negb _); [done|].
  destruct (find_tag_by_id _ _) as [srv' [[d|]|e]]; simpl; try done.
  destruct (dict_truthy d); simpl; [|done].
  destruct (name_field d); simpl; [|done]. by apply linked_insert.
Qed.

(** X18 ([fetch_tag_id], [get_stash_tag_name]).  The two caches stay
    linked through every call, whether it returns or raises: every id
    kept under a name has a name kept under it, and every name kept
    under an id has an id kept under it. *)
Theorem caches_stay_linked (api : Api) (tag_name : string) (parent_id : option Z)
    (create_if_missing use_cache : bool) (add_to_cache : option (gmap string Z))
    (tag_id : Z) :
  caches_linked api ->
  caches_linked
    (fetch_tag_id tag_name parent_id create_if_missing use_cache add_to_cache api).1.1
  /\ caches_linked (get_stash_tag_name tag_id api).1.
Proof.
  intros Hl. split; [by apply fetch_tag_id_linked|by apply get_stash_tag_name_linked].
Qed.

End ClientFacts.

(** ** Helpers of the plugin *)

Section PluginFacts.
Context `{PyFloat} `{StashServer}.

(** X19 ([extract_tags_from_response]).  On a mapping the function
    returns the mapping without its ["error"] entry: every other key
    keeps its value, and nothing is added. *)
Theorem extract_tags_drops_error {V : Type} (response : gmap string V) :
  extract_tags_from_response (Some response) = Ok (delete "error" response).
Proof.
  unfold extract_tags_from_response. f_equal.
  apply (map_fold_weak_ind (fun r m => r = delete "error" m)).
  - by rewrite delete_empty.
  - intros key value m r Hkey ->. destruct (String.eqb key "error") eqn:Heq.
    + apply String.eqb_eq in Heq as ->. by rewrite delete_insert_eq, delete_id.
    + apply String.eqb_neq in Heq. by rewrite delete_insert_ne.
Qed.

Lemma getattr_new {A} (field : TagSettings.t -> A) (st : State) s :
  getattr (length (settings_objs st)) field (with_settings (settings_objs st ++ [s]) st)
  = (with_settings (settings_objs st ++ [s]) st, Returned (field s)).
Proof. unfold getattr. simpl. by rewrite lookup_snoc. Qed.

Lemma or_text_stash_name n sfx (s : TagSettings.t) (t : string) :
  Text.truthy n = true ->
  exists name, TagSettings.stash_name (fallbacks n sfx s) = Some name
               /\ name <> ""
               /\ or_text (TagSettings.stash_name (fallbacks n sfx s)) t = name.
Proof.
  intros Hn. rewrite fallbacks_stash_name. rewrite Hn.
  assert (Hsfx : Text.truthy (n +:+ sfx) = true) by by destruct n.
  assert (Hne : n +:+ sfx <> "") by by destruct n.
  destruct (TagSettings.stash_name s) as [v|] eqn:Hs; simpl.
  - destruct (Text.truthy v) eqn:Hv.
    + exists v. unfold or_text. rewrite Hv. split; [done|].
      split; [by destruct v|done].
    + exists (n +:+ sfx). unfold or_text. by rewrite Hsfx.
  - exists (n +:+ sfx). unfold or_text. by rewrite Hsfx.
Qed.

(** X20 ([resolve_image_tag_id_from_label]).  On a configuration with
    five-position tuples the function returns.  A label that is missing
    or blank gives [None] and touches nothing.  Any other label is
    resolved once, trimmed: with images disabled for it the answer is
    [None], and otherwise the function ends in
    [resolve_ai_tag_reference] on the resolved [stash_name], which is
    never empty, so that the label itself is never looked up and the
    'no stash name found' exit is never taken. *)
Theorem resolve_image_tag_id_from_label_answer (st : State) (config : loc)
    (label : option string) (cfg : TagConfiguration.t) (global : TagSettings.t)
    (overrides : gmap string TagSettingsOverride.t) :
  snapshot st config cfg global overrides ->
  five_positions global overrides ->
  let normalized := Text.strip (or_text label "") in
  if Text.truthy normalized then
    exists s name,
      resolve config normalized st
        = (with_settings (settings_objs st ++ [s]) st,
           Returned (length (settings_objs st)))
      /\ TagSettings.stash_name s = Some name /\ name <> ""
      /\ resolve_image_tag_id_from_label label config st
         = (with_settings (settings_objs st ++ [s]) st,
            Returned (if TagSettings.image_enabled s then Reference name
                      else NoReference))
  else resolve_image_tag_id_from_label label config st = (st, Returned NoReference).
Proof.
  intros Hsnap Hfive normalized. unfold resolve_image_tag_id_from_label.
  fold normalized. destruct (Text.truthy normalized) eqn:Hn; simpl; [|done].
  destruct (resolve_returns st config normalized cfg global overrides Hsnap Hfive)
    as (s & Hres & Hs).
  assert (Hstrip : Text.truthy (Text.strip normalized) = true).
  { unfold normalized. by rewrite strip_idem. }
  destruct (or_text_stash_name (Text.strip normalized)
              (TagConfiguration._tag_suffix cfg)
              (match override_for overrides (Text.strip normalized) with
               | Some o =>
                   (override_effect o
                      (TagSettings.set_tag_name
                         (if Text.truthy (Text.strip normalized)
                          then Text.strip normalized
                          else TagSettings.tag_name global) global)).1
               | None =>
                   TagSettings.set_tag_name
                     (if Text.truthy (Text.strip normalized)
                      then Text.strip normalized
                      else TagSettings.tag_name global) global
               end) normalized Hstrip) as (name & Hname & Hne & Hor).
  rewrite <-Hs in Hname, Hor.
  exists s, name. split; [done|]. split; [done|]. split; [done|].
  erewrite bind_returned; [|exact Hres].
  erewrite bind_returned; [|apply getattr_new].
  destruct (TagSettings.image_enabled s); simpl; [|done].
  erewrite bind_returned; [|apply getattr_new].
  rewrite Hor. destruct name; [done|]. done.
Qed.

Lemma extends_new_settings (st : State) s :
  extends st (with_settings (settings_objs st ++ [s]) st).
Proof. repeat split; simpl; [by apply prefix_app_r|done|done]. Qed.

Lemma get_stash_tag_name_total tag_id (api : Api) :
  exists api' r, get_stash_tag_name tag_id api = (api', Ok r).
Proof.
  unfold get_stash_tag_name. destruct (tag_name_cache api !! tag_id); [by eexists _, _|].
  destruct (lookup_tag_name tag_id api) as [api' [r|e]]; by eexists _, _.
Qed.

Lemma enabled_stash_name_returns (st : State) config tag_name cfg global overrides :
  snapshot st config cfg global overrides ->
  five_positions global overrides ->
  exists st' r,
    enabled_stash_name config tag_name st = (st', Returned r) /\ extends st st'.
Proof.
  intros Hsnap Hfive.
  destruct (resolve_returns st config tag_name cfg global overrides Hsnap Hfive)
    as (s & Hres & _).
  unfold enabled_stash_name.
  erewrite bind_returned; [|exact Hres].
  erewrite bind_returned; [|apply getattr_new].
  destruct (TagSettings.image_enabled s); simpl.
  - erewrite bind_returned; [|apply getattr_new].
    eexists _, _. split; [done|]. apply extends_new_settings.
  - eexists _, _. split; [done|]. apply extends_new_settings.
Qed.

End PluginFacts.

Section FilterFacts.
Context `{PyFloat} `{StashServer}.
Variable resolve_ai_tag_reference :
  string -> State * Api -> (State * Api) * answer (option Z).
Hypothesis reference_extends :
  forall name rt, extends rt.1 (resolve_ai_tag_reference name rt).1.1.

Lemma filter_loop_spec (config : loc) cfg global overrides (tag_ids : list Z) :
  five_positions global overrides ->
  forall filtered applied (st : State) (api : Api),
    snapshot st config cfg global overrides ->
    NoDup filtered ->
    (forall x, x ∈ filtered -> x ∈ applied) ->
    exists st' api' r,
      filter_loop resolve_ai_tag_reference tag_ids config filtered applied st api
        = ((st', api'), r)
      /\ extends st st'
      /\ match r with
         | Ok l => NoDup l /\ length l <= length filtered + length tag_ids
         | Fails e =>
             exists name rt, (resolve_ai_tag_reference name rt).2 = Fails e
         end.
Proof.
  intros Hfive.
  induction tag_ids as [|tag_id tag_ids IH]; intros filtered applied st api Hsnap Hnd Hsub.
  { eexists _, _, _. split; [done|]. split; [apply extends_refl|].
    split; [done|]. simpl. lia. }
  assert (Hweak : forall filtered' applied' st' api',
    extends st st' -> NoDup filtered' ->
    (forall x, x ∈ filtered' -> x ∈ applied') ->
    length filtered' <= S (length filtered) ->
    exists st'' api'' r,
      filter_loop resolve_ai_tag_reference tag_ids config filtered' applied' st' api'
        = (st'', api'', r)
      /\ extends st st''
      /\ match r with
         | Ok l => NoDup l /\ length l <= length filtered + length (tag_id :: tag_ids)
         | Fails e =>
             exists name rt, (resolve_ai_tag_reference name rt).2 = Fails e
         end).
  { intros filtered' applied' st' api' Hext Hnd' Hsub' Hlen.
    destruct (IH filtered' applied' st' api') as (st'' & api'' & r & Hrun & Hext' & Hr);
      [by eapply extends_snapshot|done|done|].
    exists st'', api'', r. split; [done|]. split; [by eapply extends_trans|].
    destruct r as [l|e]; [|done]. destruct Hr as [? ?]. split; [done|].
    simpl. lia. }
  simpl.
  destruct (get_stash_tag_name_total tag_id api) as (api1 & name & ->).
  destruct (negb (opt_truthy name)).
  { apply Hweak; [apply extends_refl|done|done|lia]. }
  destruct (enabled_stash_name_returns st config (or_text name "") cfg global overrides
              Hsnap Hfive) as (st1 & r & -> & Hext1).
  destruct r as [stash_name|]; [|apply Hweak; [done|done|done|lia]].
  destruct (Text.truthy stash_name); [|apply Hweak; [done|done|done|lia]].
  pose proof (reference_extends stash_name (st1, api1)) as Hext2.
  destruct (resolve_ai_tag_reference stash_name (st1, api1)) as [[st2 api2] [[candidate|]|e]]
    eqn:Hask; simpl in Hext2.
  - case_bool_decide as Hin.
    + apply Hweak; [by eapply extends_trans|done|done|lia].
    + apply Hweak; [by eapply extends_trans| | |].
      * apply NoDup_app. split; [done|]. split; [|apply NoDup_singleton].
        intros x Hx ->%list_elem_of_singleton. by apply Hin, Hsub.
      * intros x [Hx| ->%list_elem_of_singleton]%elem_of_app; set_solver.
      * rewrite length_app. simpl. lia.
  - apply Hweak; [by eapply extends_trans|done|done|lia].
  - eexists _, _, _. split; [done|]. split; [by eapply extends_trans|].
    exists stash_name, (st1, api1). by rewrite Hask.
Qed.

(** X21 ([filter_enabled_tag_ids]).  On a configuration with
    five-position tuples, and with a [resolve_ai_tag_reference] that
    leaves the existing configuration objects as they are, the call runs
    to its end for every list of ids.  When it returns, the list holds no
    id twice and is no longer than the list given; when it raises, the
    exception is one that [resolve_ai_tag_reference] raised: neither the
    tag configuration nor [get_stash_tag_name] makes it fail.  The
    configuration objects that existed before are unchanged. *)
Theorem filter_enabled_tag_ids_no_duplicates (config : loc) (cfg : TagConfiguration.t)
    (global : TagSettings.t) (overrides : gmap string TagSettingsOverride.t)
    (tag_ids : list Z) (st : State) (api : Api) :
  snapshot st config cfg global overrides ->
  five_positions global overrides ->
  exists st' api' r,
    filter_enabled_tag_ids resolve_ai_tag_reference tag_ids config st api
      = ((st', api'), r)
    /\ extends st st'
    /\ match r with
       | Ok l => NoDup l /\ length l <= length tag_ids
       | Fails e => exists name rt, (resolve_ai_tag_reference name rt).2 = Fails e
       end.
Proof.
  intros Hsnap Hfive. unfold filter_enabled_tag_ids.
  destruct (filter_loop_spec config cfg global overrides tag_ids Hfive [] ∅ st api)
    as (st' & api' & r & Hrun & Hext & Hr); [done|apply NoDup_nil_2|set_solver|].
  by exists st', api', r.
Qed.

End FilterFacts.

(** ** The properties on the samples *)

Section OnMoreSamples.
#[local] Existing Instance integer_floats.
#[local] Existing Instance listed_tags.

Lemma empty_override_no_opinion : no_opinion empty_override.
Proof. repeat (split; [reflexivity|]). by repeat constructor. Qed.

Lemma row_blank_cells key value :
  Field key (Some value) ∈ row_blank -> Text.blank value = true.
Proof.
  intros Hin.
  repeat (apply elem_of_cons in Hin as [Hin|Hin];
          [first [discriminate Hin | injection Hin as _ ->; reflexivity]|]).
  by apply elem_of_nil in Hin.
Qed.

Lemma images_snapshot : snapshot images_state 0 cats_config images_global images_overrides.
Proof. repeat split; vm_compute; reflexivity. Qed.

Lemma images_five_positions : five_positions images_global images_overrides.
Proof.
  split; [reflexivity|].
  apply map_Forall_insert_2; [reflexivity|apply map_Forall_empty].
Qed.

(** A base path that cannot be examined: [exists()] raises and [load]
    with it, where the same call on the module's own directory returns. *)
Lemma load_unexaminable_raises :
  (load (Some "/srv/private") (fresh guarded_world)).2 = Raised OSError
  /\ (load None (fresh guarded_world)).2 = Returned 0.
Proof. split; vm_compute; reflexivity. Qed.

(** A copy that fails and leaves one row: [load] returns what that row
    says, not the built-in defaults. *)
Lemma load_parses_partial_copy :
  let r := load None (fresh half_copy_world) in
  r.2 = Returned 0
  /\ snapshot r.1 0 cats_config cats_global ∅.
Proof. cbv zeta. split; [vm_compute; reflexivity|]. repeat split; vm_compute; reflexivity. Qed.

Lemma apply_override_no_opinion_witness :
  settings_objs sample_state !! 0 = Some sample_base
  /\ no_opinion empty_override
  /\ _apply_override 0 empty_override sample_state = (sample_state, Returned tt).
Proof.
  split; [reflexivity|]. split; [exact empty_override_no_opinion|].
  exact (apply_override_no_opinion sample_state 0 empty_override sample_base eq_refl
           empty_override_no_opinion).
Defined.

Lemma apply_override_idempotent_witness :
  settings_objs sample_state !! 0 = Some sample_base
  /\ _apply_override 0 sample_override (_apply_override 0 sample_override sample_state).1
     = _apply_override 0 sample_override sample_state.
Proof.
  split; [reflexivity|].
  exact (apply_override_idempotent sample_state 0 sample_override sample_base eq_refl).
Defined.


Lemma load_provisions_from_template_witness :
  files (world (fresh template_world))
    !! path_join (default (plugin_root (world (fresh template_world))) None) _CONFIG_FILENAME
  = None
  /\ can_examine (world (fresh template_world))
       (default (plugin_root (world (fresh template_world))) None) _CONFIG_FILENAME
     = true
  /\ files (world (fresh template_world))
       !! path_join (plugin_root (world (fresh template_world))) _TEMPLATE_FILENAME
     = Some cats_file
  /\ copyfile_fails (world (fresh template_world)) = false
  /\ files (world (load None (fresh template_world)).1)
     = <[path_join plugin_dir _CONFIG_FILENAME := cats_file]> (files template_world)
  /\ load None (fresh template_world)
     = load None
         (with_world
            (with_files
               (<[path_join plugin_dir _CONFIG_FILENAME := cats_file]> (files template_world))
               template_world)
            (fresh template_world)).
Proof.
  split; [vm_compute; reflexivity|]. split; [vm_compute; reflexivity|].
  split; [vm_compute; reflexivity|]. split; [reflexivity|].
  exact (load_provisions_from_template None (fresh template_world) cats_file
           ltac:(vm_compute; reflexivity) ltac:(vm_compute; reflexivity)
           ltac:(vm_compute; reflexivity) eq_refl).
Defined.

Lemma load_blank_file_witness :
  files (world (fresh (world_with blank_file)))
    !! path_join (default (plugin_root (world (fresh (world_with blank_file)))) None)
         _CONFIG_FILENAME
  = Some blank_file
  /\ Forall (fun raw_row => forall key value,
               Field key (Some value) ∈ raw_row -> Text.blank value = true)
            (data_rows blank_file)
  /\ exists st' c cfg,
       load None (fresh (world_with blank_file)) = (st', Returned c)
       /\ snapshot st' c cfg builtin_defaults ∅
       /\ world st' = world (fresh (world_with blank_file)).
Proof.
  assert (Hfile : files (world (fresh (world_with blank_file)))
                    !! path_join (default (plugin_root (world (fresh (world_with blank_file)))) None)
                         _CONFIG_FILENAME
                  = Some blank_file) by (vm_compute; reflexivity).
  assert (Hrows : Forall (fun raw_row => forall key value,
                            Field key (Some value) ∈ raw_row -> Text.blank value = true)
                         (data_rows blank_file)).
  { repeat (constructor; [exact row_blank_cells|]). constructor. }
  split; [exact Hfile|]. split; [exact Hrows|].
  exact (load_blank_file None (fresh (world_with blank_file)) blank_file Hfile Hrows).
Defined.

Lemma parse_row_same_columns_witness :
  Forall2 same_item row_Cat row_Cat_respelled
  /\ _parse_row 2 row_Cat = _parse_row 7 row_Cat_respelled.
Proof.
  assert (Hsame : Forall2 same_item row_Cat row_Cat_respelled).
  { repeat (constructor; [split; vm_compute; reflexivity|]). constructor. }
  split; [exact Hsame|].
  exact (parse_row_same_columns 2 7 row_Cat row_Cat_respelled Hsame).
Defined.

Lemma parse_row_tag_only_witness :
  (forall key value, Field key (Some value) ∈ row_tag_only ->
     _normalize_key key ∈ tag_headers \/ Text.blank value = true)
  /\ _parse_row 5 row_tag_only = (Some "dog", Some empty_override)
  /\ no_opinion empty_override.
Proof.
  assert (Hcells : forall key value, Field key (Some value) ∈ row_tag_only ->
            _normalize_key key ∈ tag_headers \/ Text.blank value = true).
  { intros key value Hin.
    apply elem_of_cons in Hin as [Hin|Hin].
    { injection Hin as -> ->. left. vm_compute. apply list_elem_of_here. }
    apply elem_of_cons in Hin as [Hin|Hin].
    { injection Hin as -> ->. right. reflexivity. }
    apply elem_of_cons in Hin as [Hin|Hin]; [discriminate Hin|].
    by apply elem_of_nil in Hin. }
  assert (Hrow : _parse_row 5 row_tag_only = (Some "dog", Some empty_override))
    by (vm_compute; reflexivity).
  split; [exact Hcells|]. split; [exact Hrow|].
  exact (parse_row_tag_only 5 row_tag_only (Some "dog") empty_override Hcells Hrow).
Defined.

Lemma resolve_ignores_case_and_white_space_witness :
  snapshot cats_state 0 cats_config cats_global cats_overrides
  /\ five_positions cats_global cats_overrides
  /\ Text.lower (Text.strip "Cat") = Text.lower (Text.strip " CAT ")
  /\ exists st1 st2 e1 e2 s1 s2,
       resolve 0 "Cat" cats_state = (st1, Returned e1)
       /\ resolve 0 " CAT " cats_state = (st2, Returned e2)
       /\ settings_objs st1 !! e1 = Some s1
       /\ settings_objs st2 !! e2 = Some s2
       /\ same_behaviour s1 s2
       /\ (Text.strip "Cat" = Text.strip " CAT " -> s1 = s2).
Proof.
  split; [exact cats_snapshot|]. split; [exact cats_five_positions|].
  split; [vm_compute; reflexivity|].
  exact (resolve_ignores_case_and_white_space cats_state 0 "Cat" " CAT " cats_config
           cats_global cats_overrides cats_snapshot cats_five_positions
           ltac:(vm_compute; reflexivity)).
Defined.

Lemma load_then_resolve_layers_witness :
  files (world (fresh (world_with cats_file)))
    !! path_join (default (plugin_root (world (fresh (world_with cats_file)))) None)
         _CONFIG_FILENAME
  = Some cats_file
  /\ exists st' effective s,
       (c <- load None ;; resolve c "Cat") (fresh (world_with cats_file))
         = (st', Returned effective)
       /\ settings_objs st' !! effective = Some s
       /\ TagSettings.markers_enabled s = true
       /\ TagSettings.scene_tag_enabled s = true
       /\ TagSettings.max_gap s = None.
Proof.
  assert (Hfile : files (world (fresh (world_with cats_file)))
                    !! path_join (default (plugin_root (world (fresh (world_with cats_file)))) None)
                         _CONFIG_FILENAME
                  = Some cats_file) by (vm_compute; reflexivity).
  split; [exact Hfile|].
  destruct (load_then_resolve_layers None "Cat" (fresh (world_with cats_file)) cats_file Hfile)
    as (st' & effective & s & Hrun & Hs & Hlayers).
  cbv zeta in Hlayers.
  destruct Hlayers as (Hmarkers & Hscene & _ & _ & _ & Hgap).
  exists st', effective, s. split; [exact Hrun|]. split; [exact Hs|].
  split; [rewrite Hmarkers; vm_compute; reflexivity|].
  split; [rewrite Hscene; vm_compute; reflexivity|].
  rewrite Hgap. vm_compute. reflexivity.
Defined.

Lemma normalize_key_tolerant_witness :
  spaces_only " Markers Enabled "
  /\ spaces_only "markers_enabled"
  /\ (_normalize_key " Markers Enabled " = _normalize_key "markers_enabled"
      <-> squeeze (Text.lower " Markers Enabled ") = squeeze (Text.lower "markers_enabled")).
Proof.
  assert (Hk : spaces_only " Markers Enabled ").
  { unfold spaces_only. simpl.
    repeat (constructor;
            [intros Hc; first [reflexivity | vm_compute in Hc; discriminate Hc]|]).
    constructor. }
  assert (Hk' : spaces_only "markers_enabled").
  { unfold spaces_only. simpl.
    repeat (constructor;
            [intros Hc; first [reflexivity | vm_compute in Hc; discriminate Hc]|]).
    constructor. }
  split; [exact Hk|]. split; [exact Hk'|].
  exact (normalize_key_tolerant " Markers Enabled " "markers_enabled" Hk Hk').
Defined.

Lemma fetch_tag_id_then_cached_witness :
  fetch_tag_id "cat" None true false None start_api = (cat_api, None, Ok (Some 1%Z))
  /\ (forall parent_id' create_if_missing' later,
        fetch_tag_id "cat" parent_id' create_if_missing' true later cat_api
          = (cat_api, later, Ok (Some 1%Z)))
  /\ ((false = false \/ tag_id_cache start_api !! "cat" = None) ->
      1%Z <> 0%Z /\ get_stash_tag_name 1 cat_api = (cat_api, Ok (Some "cat"))).
Proof.
  assert (Hrun : fetch_tag_id "cat" None true false None start_api
                 = (cat_api, None, Ok (Some 1%Z))) by (vm_compute; reflexivity).
  split; [exact Hrun|].
  exact (fetch_tag_id_then_cached "cat" None true false None start_api cat_api None 1 Hrun).
Defined.

Lemma start_api_linked : caches_linked start_api.
Proof. split; intros ? ? Hl; simpl in Hl; by rewrite lookup_empty in Hl. Qed.

Lemma caches_stay_linked_witness :
  caches_linked start_api
  /\ caches_linked (fetch_tag_id "cat" None true false None start_api).1.1
  /\ caches_linked (get_stash_tag_name 1 start_api).1.
Proof.
  split; [exact start_api_linked|].
  exact (caches_stay_linked start_api "cat" None true false None 1 start_api_linked).
Defined.

Lemma resolve_image_tag_id_from_label_answer_witness :
  snapshot images_state 0 cats_config images_global images_overrides
  /\ five_positions images_global images_overrides
  /\ exists s name,
       resolve 0 "Cat" images_state
         = (with_settings (settings_objs images_state ++ [s]) images_state,
            Returned (length (settings_objs images_state)))
       /\ TagSettings.stash_name s = Some name /\ name <> ""
       /\ resolve_image_tag_id_from_label (Some " Cat ") 0 images_state
          = (with_settings (settings_objs images_state ++ [s]) images_state,
             Returned (if TagSettings.image_enabled s then Reference name
                       else NoReference)).
Proof.
  split; [exact images_snapshot|]. split; [exact images_five_positions|].
  exact (resolve_image_tag_id_from_label_answer images_state 0 (Some " Cat ") cats_config
           images_global images_overrides images_snapshot images_five_positions).
Defined.

Lemma length_reference_extends name (rt : State * Api) :
  extends rt.1 (length_reference name rt).1.1.
Proof. apply extends_refl. Qed.

Lemma filter_enabled_tag_ids_no_duplicates_witness :
  (forall name rt, extends rt.1 (length_reference name rt).1.1)
  /\ snapshot images_state 0 cats_config images_global images_overrides
  /\ five_positions images_global images_overrides
  /\ exists st' api' r,
       filter_enabled_tag_ids length_reference [1; 2; 1; 3]%Z 0 images_state named_api
         = ((st', api'), r)
       /\ extends images_state st'
       /\ match r with
          | Ok l => NoDup l /\ length l <= length [1; 2; 1; 3]%Z
          | Fails e => exists name rt, (length_reference name rt).2 = Fails e
          end.
Proof.
  split; [exact length_reference_extends|].
  split; [exact images_snapshot|]. split; [exact images_five_positions|].
  exact (filter_enabled_tag_ids_no_duplicates length_reference length_reference_extends
           0 cats_config images_global images_overrides [1; 2; 1; 3]%Z images_state
           named_api images_snapshot images_five_positions).
Defined.

End OnMoreSamples.
